(** * South-China-Livehood-Evolution: the Hunter group and the tick scheduler

    A shallow embedding of [abses_sce/hunter.py], [abses_sce/model.py] and of
    the legacy [src/hunter.py], with the properties of competition,
    conversion, movement, diffusion and phase ordering proved about it.

    Conventions of the embedding:
    - Python objects live in a heap: [agents] is the list of all group
      objects ever created and an [AgentId] is an index into it (object
      identity).  A dead group stays in the heap with [alive = false].
    - Python numbers are rationals ([Q]); comparisons are the decidable
      comparisons of [Q].
    - A method that can raise is a state transformer returning an [Outcome];
      the state reached when the exception is raised is kept, as in Python.
    - The recursion move -> put_on -> compete -> _loss_competition -> move is
      bounded by a fuel counter; running out of it raises [RecursionError]. *)

From Stdlib Require Import QArith Qround.
From stdpp Require Import base option list gmap strings.

Open Scope Q_scope.

(** ** Outcomes and the state-and-exception monad *)

Inductive Exn : Type :=
| TypeError
| AttributeError
| RecursionError.

Inductive Outcome (A : Type) : Type :=
| Ok (a : A)
| Raise (e : Exn).

Arguments Ok {A} a.
Arguments Raise {A} e.

Definition M (St A : Type) : Type := St -> St * Outcome A.

Definition ret {St A : Type} (a : A) : M St A := fun s => (s, Ok a).

Definition raise {St A : Type} (e : Exn) : M St A := fun s => (s, Raise e).

Definition bind {St A B : Type} (m : M St A) (k : A -> M St B) : M St B :=
  fun s =>
    match m s with
    | (s', Ok a) => k a s'
    | (s', Raise e) => (s', Raise e)
    end.

Declare Scope py_scope.
Delimit Scope py_scope with py.
Notation "x <- c1 ;; c2" := (bind c1 (fun x => c2))
  (at level 100, c1 at next level, right associativity) : py_scope.
Notation "c1 ;; c2" := (bind c1 (fun _ => c2))
  (at level 100, right associativity) : py_scope.
Open Scope py_scope.

(** ** Numbers *)

(** [a >= b], [a > b] and [a < b] on Python numbers. *)
Definition Qgeb (a b : Q) : bool := Qle_bool b a.
Definition Qgtb (a b : Q) : bool := negb (Qle_bool a b).
Definition Qltb (a b : Q) : bool := negb (Qle_bool b a).

(** [np.ceil] *)
Definition np_ceil (x : Q) : Q := inject_Z (Qceiling x).

(** ** Data model *)

(** Object identities and cell references are indices. *)
Abbreviation AgentId := nat (only parsing).
Abbreviation Cell := nat (only parsing).

Record Agent : Type := mkAgent {
  breed : string;
  size : Q;
  alive : bool;
  _cell : option Cell
}.

(** What an identifier outside the heap denotes: no reachable code produces
    one; it reads as a dead, unplaced object of no known breed. *)
Definition no_agent : Agent :=
  {| breed := ""; size := 0; alive := false; _cell := None |}.

Record World : Type := mkWorld {
  agents : list Agent;
  occ : gmap nat (list nat);
  draws : nat
}.

(** Configuration read through [self.params] and [self.model.params]. *)
Module params.
Record t : Type := mk {
  is_complex : Q;
  intensified_coefficient : Q;
  convert_prob : gmap string Q;
  min_size : Q;
  loss_rate : Q
}.
End params.

(** The collaborators outside the core: configuration, terrain attributes of
    the cells, the neighbourhood query, the place search of [people.py], the
    output sequence of the random generator and the diffusion of the base
    class. *)
Record Env : Type := mkEnv {
  cfg : params.t;
  lim_h : Cell -> Q;
  is_arable : Cell -> bool;
  is_rice_arable : Cell -> bool;
  get_neighboring_cells : Cell -> nat -> bool -> list Cell;
  search_a_new_place : World -> AgentId -> Cell -> nat -> option Cell;
  random_stream : nat -> Q;
  base_diffuse : AgentId -> option (Q * Q) -> M World (option AgentId)
}.

(** *** Heap access *)

Definition get (w : World) (a : AgentId) : Agent :=
  default no_agent (agents w !! a).

Definition upd (a : AgentId) (f : Agent -> Agent) (w : World) : World :=
  {| agents := alter f a (agents w); occ := occ w; draws := draws w |}.

Definition set_occ (c : Cell) (l : list AgentId) (w : World) : World :=
  {| agents := agents w; occ := <[c := l]> (occ w); draws := draws w |}.

Definition with_size (v : Q) (ag : Agent) : Agent :=
  {| breed := breed ag; size := v; alive := alive ag; _cell := _cell ag |}.

Definition with_cell (c : option Cell) (ag : Agent) : Agent :=
  {| breed := breed ag; size := size ag; alive := alive ag; _cell := c |}.

Definition killed (ag : Agent) : Agent :=
  {| breed := breed ag; size := size ag; alive := false; _cell := None |}.

(** [cell.agents] *)
Definition cell_agents (w : World) (c : Cell) : list AgentId :=
  default [] (occ w !! c).

(** [cell.has_agent()] and [cell.has_agent(breed=b)] *)
Definition has_agent (w : World) (c : Cell) : bool :=
  match cell_agents w c with
  | [] => false
  | _ :: _ => true
  end.

Definition has_agent_breed (w : World) (c : Cell) (b : string) : bool :=
  existsb (fun a => String.eqb (breed (get w a)) b) (cell_agents w c).

(** [actor.on_earth] *)
Definition on_earth (w : World) (a : AgentId) : bool :=
  match _cell (get w a) with
  | Some _ => true
  | None => false
  end.

(** ** The base class and the cell (people.py, env.py) *)

(** Modelled from the spec: the base class of [people.py], whose source is
    not included.  Section 4.1 gives its contract:
    [die()] "sets alive=false, unplaced; idempotent"; [placeOn(cell | none)]
    "if cell is none, the group becomes unplaced", otherwise "placement
    always succeeds structurally".  Leaving a cell removes the group from the
    cell's occupants; arriving appends it to them. *)
Definition leave_cell (a : AgentId) (w : World) : World :=
  match _cell (get w a) with
  | Some c => set_occ c (filter (fun x => x <> a) (cell_agents w c)) w
  | None => w
  end.

(** Modelled from the spec: [SiteGroup.die] of [people.py] (section 4.1). *)
Definition die (a : AgentId) (w : World) : World :=
  upd a killed (leave_cell a w).

(** Modelled from the spec: [SiteGroup.put_on] of [people.py], the
    [super().put_on] of the Hunter (section 4.1, placeOn). *)
Definition base_put_on (a : AgentId) (cell : option Cell) (w : World) : World :=
  let w1 := leave_cell a w in
  match cell with
  | None => upd a (with_cell None) w1
  | Some c => upd a (with_cell (Some c)) (set_occ c (cell_agents w1 c ++ [a]) w1)
  end.

(** Modelled from the spec: [CompetingCell.convert] of [env.py]; section 6,
    convertOccupant, "atomically replaces occupant's strategy tag, returns new
    entity handle with identical size/position", and section 4.3, "the
    original Forager is terminated".  The new object is allocated at the end
    of the heap. *)
Definition cell_convert (c : Cell) (a : AgentId) (to : string) (w : World)
  : World * AgentId :=
  let w1 := die a w in
  let new := length (agents w1) in
  let ag := {| breed := to; size := size (get w a); alive := true; _cell := Some c |} in
  ({| agents := agents w1 ++ [ag];
      occ := <[c := cell_agents w1 c ++ [new]]> (occ w1);
      draws := draws w1 |}, new).

(** Modelled from the spec: [random.random()] of the generator attached to
    the group; it returns the next element of the generator's sequence. *)
Definition random (stream : nat -> Q) (w : World) : World * Q :=
  ({| agents := agents w; occ := occ w; draws := S (draws w) |},
   stream (draws w)).

(** The world after one draw, and an environment whose generator produces
    another sequence. *)
Definition drawn (w : World) : World :=
  {| agents := agents w; occ := occ w; draws := S (draws w) |}.

Definition with_stream (stream : nat -> Q) (env : Env) : Env :=
  {| cfg := cfg env; lim_h := lim_h env; is_arable := is_arable env;
     is_rice_arable := is_rice_arable env;
     get_neighboring_cells := get_neighboring_cells env;
     search_a_new_place := search_a_new_place env;
     random_stream := stream; base_diffuse := base_diffuse env |}.

(** ** abses_sce/hunter.py *)

Section Hunter.

Variable env : Env.

(** [Hunter.max_size] *)
Definition max_size (w : World) (self : AgentId) : Q :=
  match _cell (get w self) with
  | Some c => np_ceil (lim_h env c)
  | None => 100000000
  end.

(** [Hunter.is_complex] *)
Definition is_complex (w : World) (self : AgentId) : bool :=
  match _cell (get w self) with
  | Some _ => Qgtb (size (get w self)) (params.is_complex (cfg env))
  | None => false
  end.

(** Modelled from the spec: the [size] setter of [people.py]; section 4.1,
    clampedSize, "returns value bounded to [min_size, max_size]". *)
Definition clampedSize (w : World) (self : AgentId) (value : Q) : Q :=
  if Qltb value (params.min_size (cfg env)) then params.min_size (cfg env)
  else if Qgtb value (max_size w self) then max_size w self
  else value.

Definition set_size (self : AgentId) (value : Q) (w : World) : World :=
  upd self (with_size (clampedSize w self value)) w.

(** The methods below call each other in a cycle.  Each is first written
    over the [move] it calls back into ([move_rec]); [move] then closes the
    cycle by recursion on the fuel. *)
Section Open.

Variable move_rec : AgentId -> nat -> M World bool.

(** [Hunter._loss_competition] *)
Definition _loss_competition_with (self loser : AgentId) : M World unit :=
  fun w =>
    let loss := params.loss_rate (cfg env) in
    if bool_decide (breed (get w loser) ∈ ["Farmer"; "RiceFarmer"]) then
      (die loser w, Ok tt)
    else if String.eqb (breed (get w loser)) "Hunter" then
      if is_complex w loser then (die loser w, Ok tt)
      else
        let w1 := set_size loser (size (get w loser) * loss) w in
        if on_earth w1 loser then (move_rec loser 1%nat ;; ret tt) w1
        else (w1, Ok tt)
    else (w, Raise TypeError).

(** [Hunter._compete_with_hunter] *)
Definition _compete_with_hunter_with (self hunter : AgentId) : M World bool :=
  fun w =>
    if Qgeb (size (get w self)) (size (get w hunter)) then
      (_loss_competition_with self hunter ;; ret true) w
    else (_loss_competition_with self self ;; ret false) w.

(** [Hunter._compete_with_farmer] *)
Definition _compete_with_farmer_with (self farmer : AgentId) : M World bool :=
  fun w =>
    let power := size (get w self) * params.intensified_coefficient (cfg env) in
    if Qgeb power (size (get w farmer)) then
      (_loss_competition_with self farmer ;; ret true) w
    else (_loss_competition_with self self ;; ret false) w.

(** [Hunter.compete] *)
Definition compete_with (self other : AgentId) : M World bool :=
  fun w =>
    if bool_decide (breed (get w other) ∈ ["Farmer"; "RiceFarmer"]) then
      _compete_with_farmer_with self other w
    else if String.eqb (breed (get w other)) "Hunter" then
      _compete_with_hunter_with self other w
    else (w, Raise TypeError).

(** [Hunter.put_on] *)
Definition put_on_with (self : AgentId) (cell : option Cell) : M World unit :=
  fun w =>
    match cell with
    | None => (base_put_on self None w, Ok tt)
    | Some c =>
        let existing_agent :=
          if has_agent w c then head (cell_agents w c) else None in
        let w1 := base_put_on self (Some c) w in
        match existing_agent with
        | Some e => (compete_with self e ;; ret tt) w1
        | None => (w1, Ok tt)
        end
    end.

End Open.

(** [Hunter.move].  The nested [loser.move()] of a competition it triggers
    runs with one unit of fuel less. *)
Fixpoint move (fuel : nat) (self : AgentId) (radius : nat) : M World bool :=
  fun w =>
    if negb (is_complex w self) && on_earth w self then
      match _cell (get w self) ≫= (fun c => search_a_new_place env w self c radius) with
      | Some cell =>
          (put_on_with
             match fuel with
             | O => fun _ _ => raise RecursionError
             | S f => move f
             end self (Some cell) ;; ret true) w
      | None => (w, Ok false)
      end
    else (w, Ok false).

(** The [loser.move()] reached from a method running with [fuel]. *)
Definition nested_move (fuel : nat) : AgentId -> nat -> M World bool :=
  match fuel with
  | O => fun _ _ => raise RecursionError
  | S f => move f
  end.

Definition _loss_competition (fuel : nat) := _loss_competition_with (nested_move fuel).
Definition _compete_with_hunter (fuel : nat) := _compete_with_hunter_with (nested_move fuel).
Definition _compete_with_farmer (fuel : nat) := _compete_with_farmer_with (nested_move fuel).
Definition compete (fuel : nat) := compete_with (nested_move fuel).
Definition put_on (fuel : nat) := put_on_with (nested_move fuel).

(** [Hunter.diffuse] *)
Definition diffuse (self : AgentId) (group_range : option (Q * Q))
  : M World (option AgentId) :=
  fun w =>
    if Qgeb (size (get w self)) (max_size w self) then
      base_diffuse env self group_range w
    else (w, Ok None).

(** [Hunter._convert_to_farmer] *)
Definition _convert_to_farmer (self : AgentId) (radius : nat) (moore : bool)
  : M World AgentId :=
  fun w =>
    match _cell (get w self) with
    | None => (w, Raise AttributeError)
    | Some c =>
        let cells := get_neighboring_cells env c radius moore in
        let cond1 := existsb (fun c' => has_agent_breed w c' "Farmer") cells in
        let cond2 := is_arable env c in
        let convert_prob :=
          default 0 (params.convert_prob (cfg env) !! "to_farmer") in
        let (w1, x) := random (random_stream env) w in
        let cond3 := Qltb x convert_prob in
        if cond1 && cond2 && cond3 then
          let (w2, new) := cell_convert c self "Farmer" w1 in (w2, Ok new)
        else (w1, Ok self)
    end.

(** [Hunter._convert_to_rice] *)
Definition _convert_to_rice (self : AgentId) (radius : nat) (moore : bool)
  : M World AgentId :=
  fun w =>
    match _cell (get w self) with
    | None => (w, Raise AttributeError)
    | Some c =>
        let cells := get_neighboring_cells env c radius moore in
        let cond1 := existsb (fun c' => has_agent_breed w c' "RiceFarmer") cells in
        let cond2 := is_rice_arable env c in
        let convert_prob :=
          default 0 (params.convert_prob (cfg env) !! "to_rice") in
        let (w1, x) := random (random_stream env) w in
        let cond3 := Qltb x convert_prob in
        if cond1 && cond2 && cond3 then
          let (w2, new) := cell_convert c self "RiceFarmer" w1 in (w2, Ok new)
        else (w1, Ok self)
    end.

(** [Hunter.convert]: [agent is not self] compares object identities. *)
Definition convert (self : AgentId) (radius : nat) (moore : bool)
  : M World AgentId :=
  fun w =>
    match _convert_to_farmer self radius moore w with
    | (w1, Ok agent) =>
        if negb (Nat.eqb agent self) then (w1, Ok agent)
        else _convert_to_rice self radius moore w1
    | (w1, Raise e) => (w1, Raise e)
    end.

End Hunter.

(** ** abses_sce/model.py *)

(** The model object: the world it runs ([self.nature], [self.agents]) and
    the three series it records. *)
Record Model (W : Type) : Type := mkModel {
  nature : W;
  new_farmers : list nat;
  farmers_num : list Q;
  hunters_num : list Q
}.

Arguments mkModel {W}.
Arguments nature {W}.
Arguments new_farmers {W}.
Arguments farmers_num {W}.
Arguments hunters_num {W}.

(** Run a computation of the world inside the model. *)
Definition in_nature {W A : Type} (m : M W A) : M (Model W) A :=
  fun s =>
    let (w, r) := m (nature s) in
    ({| nature := w; new_farmers := new_farmers s;
        farmers_num := farmers_num s; hunters_num := hunters_num s |}, r).

Section Scheduler.

Context {W : Type}.

(** [actor.on_earth], [getattr(actor, func)()], the rosters [self.actors],
    [self.farmers] and [self.hunters], [actor.size] and
    [self.nature.add_farmers()]. *)
Variable on_earth_of : W -> AgentId -> bool.
Variable call : string -> AgentId -> M W unit.
Variable actors_of farmers_of hunters_of : W -> list AgentId.
Variable size_of : W -> AgentId -> Q.
Variable add_farmers : M W (list AgentId).

(** [Model.trigger] *)
Fixpoint trigger (actors : list AgentId) (func : string) : M W unit :=
  match actors with
  | [] => ret tt
  | actor :: rest =>
      fun w =>
        if negb (on_earth_of w actor) then trigger rest func w
        else (call func actor ;; trigger rest func) w
  end.

(** [array("size").sum()] *)
Definition sum_sizes (w : W) (l : list AgentId) : Q :=
  fold_right (fun a acc => size_of w a + acc) 0 l.

Definition record_numbers (farmers : list AgentId) : M (Model W) unit :=
  fun s =>
    let w := nature s in
    ({| nature := w;
        new_farmers := new_farmers s ++ [length farmers];
        farmers_num := farmers_num s ++ [sum_sizes w (farmers_of w)];
        hunters_num := hunters_num s ++ [sum_sizes w (hunters_of w)] |}, Ok tt).

(** [Model.step].  Each roster is read when its phase starts. *)
Definition step : M (Model W) unit :=
  farmers <- in_nature add_farmers ;;
  in_nature (fun w => trigger (actors_of w) "population_growth" w) ;;
  in_nature (fun w => trigger (actors_of w) "convert" w) ;;
  in_nature (fun w => trigger (actors_of w) "diffuse" w) ;;
  in_nature (fun w => trigger (hunters_of w) "move" w) ;;
  record_numbers farmers.

End Scheduler.

(** *** The scheduler over the world of groups *)

(** Modelled from the spec: the rosters [self.actors], [self.farmers] and
    [self.hunters] of the framework; section 3, "a group with alive = false
    is never returned by spatial queries and never participates in subsequent
    ticks".  A roster lists the live groups in the order of their creation. *)
Definition actors (w : World) : list AgentId :=
  filter (fun a => alive (get w a) = true) (seq 0 (length (agents w))).

Definition select (b : string) (w : World) : list AgentId :=
  filter (fun a => breed (get w a) = b) (actors w).

(** [getattr(actor, func)()] for the methods of the Hunter, called with their
    default arguments; [others] stands for the methods of the other classes
    and of the base class. *)
Definition hunter_call (env : Env) (fuel : nat)
    (others : string -> AgentId -> M World unit)
    (func : string) (actor : AgentId) : M World unit :=
  fun w =>
    if String.eqb (breed (get w actor)) "Hunter" then
      if String.eqb func "convert" then
        (convert env actor 1%nat false ;; ret tt) w
      else if String.eqb func "diffuse" then
        (diffuse env actor None ;; ret tt) w
      else if String.eqb func "move" then
        (move env fuel actor 1%nat ;; ret tt) w
      else others func actor w
    else others func actor w.

(** One tick of the model over the world of groups. *)
Definition tick (env : Env) (fuel : nat)
    (others : string -> AgentId -> M World unit)
    (add_farmers : M World (list AgentId)) : M (Model World) unit :=
  step on_earth (hunter_call env fuel others)
       actors (select "Farmer") (select "Hunter")
       (fun w a => size (get w a)) add_farmers.

(** ** src/hunter.py, the legacy Hunter *)

Module Legacy.
Section Hunter.

Variable env : Env.

(** The [size] setter of the legacy base class and the framework's
    [move_to], which the legacy code calls without a target. *)
Variable set_size : AgentId -> Q -> World -> World.
Variable move_to : AgentId -> M World unit.

(** [Hunter._loss_competition] *)
Definition _loss_competition (self loser : AgentId) : M World unit :=
  fun w =>
    let loss := params.loss_rate (cfg env) in
    if String.eqb (breed (get w loser)) "Farmer" then (die loser w, Ok tt)
    else if String.eqb (breed (get w loser)) "Hunter" then
      move_to loser (set_size loser (size (get w loser) * loss) w)
    else (w, Raise TypeError).

(** [Hunter.compete] *)
Definition compete (self other : AgentId) : M World bool :=
  fun w =>
    let power := size (get w self) * params.intensified_coefficient (cfg env) in
    if String.eqb (breed (get w other)) "Farmer"
         && Qgeb power (size (get w other))
       || negb (String.eqb (breed (get w other)) "Farmer")
         && String.eqb (breed (get w other)) "Hunter"
         && Qgeb (size (get w self)) (size (get w other))
    then (_loss_competition self other ;; ret true) w
    else if negb (bool_decide (breed (get w other) ∈ ["Farmer"; "Hunter"]))
    then (w, Raise TypeError)
    else (_loss_competition self self ;; ret false) w.

(** The threshold [self.params.settle_size]; the choice
    [cells.select({"has_hunter": False}).random_choose()] among the cells of
    [self._cell.sphere(radius=1, neigh_4=True)], which belongs to the
    framework; and the [put_on] the legacy Hunter inherits. *)
Variable settle_size : Q.
Variable choose_free_cell : Cell -> M World Cell.
Variable inherited_put_on : AgentId -> Cell -> M World unit.

(** [Hunter.moving] *)
Definition moving (w : World) (self : AgentId) : bool :=
  Qgtb (size (get w self)) settle_size.

(** [Hunter.move] *)
Definition move (self : AgentId) : M World unit :=
  fun w =>
    if moving w self then
      match _cell (get w self) with
      | None => (w, Raise AttributeError)
      | Some c => (cell <- choose_free_cell c ;; inherited_put_on self cell) w
      end
    else (w, Ok tt).

End Hunter.
End Legacy.

(** ** Vocabulary of the statements *)

(** *** Surviving a defeat *)

(** [A] is a live Hunter. *)
Definition lives (A : AgentId) (w : World) : Prop :=
  alive (get w A) = true /\ breed (get w A) = "Hunter"%string.

(** [move_rec] kills no live Hunter [A] that is not complex when it starts,
    nor [A] itself when it is [A] that moves. *)
Definition keeps (env : Env) (A : AgentId)
    (move_rec : AgentId -> nat -> M World bool) : Prop :=
  forall (X : AgentId) (r : nat) (w : World),
    lives A w -> is_complex env w A = false \/ X = A ->
    lives A (fst (move_rec X r w)).

(** *** Occupancy *)

(** The occupants of a cell that are alive. *)
Definition live_occupants (w : World) (c : Cell) : list AgentId :=
  filter (fun a => alive (get w a) = true) (cell_agents w c).

(** The claim that placement leaves at most one live occupant on the cell. *)
Definition single_occupancy_after_put_on (env : Env) : Prop :=
  forall (fuel : nat) (self : AgentId) (c : Cell) (w w' : World),
    (length (live_occupants w c) <= 1)%nat ->
    put_on env fuel self (Some c) w = (w', Ok tt) ->
    (length (live_occupants w' c) <= 1)%nat.

(** *** Observing the scheduler

    To speak about the order of the calls that [step] makes, the scheduler is
    run over a world paired with a journal: every method call that [trigger]
    dispatches is entered in it, together with whether the actor was placed
    in the world the call started from.  The scheduler itself is unchanged;
    only the dispatched methods write the journal. *)

Record Event : Type := mkEvent {
  ev_func : string;
  ev_actor : AgentId;
  ev_placed : bool
}.

Section Journal.

Context {W : Type}.
Variable on_earth_of : W -> AgentId -> bool.
Variable call : string -> AgentId -> M W unit.
Variable actors_of farmers_of hunters_of : W -> list AgentId.
Variable size_of : W -> AgentId -> Q.
Variable add_farmers : M W (list AgentId).

Definition journal_call (func : string) (actor : AgentId)
  : M (W * list Event) unit :=
  fun s =>
    let (w', r) := call func actor (fst s) in
    ((w', snd s ++ [mkEvent func actor (on_earth_of (fst s) actor)]), r).

Definition journal_lift {A : Type} (m : M W A) : M (W * list Event) A :=
  fun s => let (w', r) := m (fst s) in ((w', snd s), r).

Definition journal_trigger : list AgentId -> string -> M (W * list Event) unit :=
  trigger (fun s => on_earth_of (fst s)) journal_call.

Definition journal_step : M (Model (W * list Event)) unit :=
  step (fun s => on_earth_of (fst s)) journal_call
       (fun s => actors_of (fst s)) (fun s => farmers_of (fst s))
       (fun s => hunters_of (fst s)) (fun s => size_of (fst s))
       (journal_lift add_farmers).

(** Forgetting the journal. *)
Definition erase (s : Model (W * list Event)) : Model W :=
  {| nature := fst (nature s); new_farmers := new_farmers s;
     farmers_num := farmers_num s; hunters_num := hunters_num s |}.

Definition journal (s : Model (W * list Event)) : list Event := snd (nature s).

End Journal.

(** A block of the journal: calls of one method, all on placed actors. *)
Definition block (func : string) (l : list Event) : Prop :=
  Forall (fun e => ev_func e = func /\ ev_placed e = true) l.

(** [m] only appends to the journal, and what it appends satisfies [P]. *)
Definition appends {W A : Type} (P : list Event -> Prop)
    (m : M (Model (W * list Event)) A) : Prop :=
  forall s, exists l, journal (fst (m s)) = journal s ++ l /\ P l.

(** [m'] does to the world under the journal what [m] does to the world. *)
Definition erases_to {W A : Type} (m' : M (Model (W * list Event)) A)
    (m : M (Model W) A) : Prop :=
  forall s, (erase (fst (m' s)), snd (m' s)) = m (erase s).

(** *** The run of a tick, as the specification words it

    A phase goes through its roster in order.  An actor that is not placed
    in the world of the moment it is reached is passed over; the method of
    any other is called, and the phase goes on from the world the call left,
    unless the call raised.  The run of a phase is written down as one event
    per actor reached, [ev_placed] telling whether its method was called. *)

Section Run.

Context {W : Type}.
Variable on_earth_of : W -> AgentId -> bool.
Variable call : string -> AgentId -> M W unit.

Inductive phase_run (func : string)
  : list AgentId -> W -> list Event -> W -> Outcome unit -> Prop :=
| phase_done (w : W) :
    phase_run func [] w [] w (Ok tt)
| phase_skip (a : AgentId) (rest : list AgentId) (w w' : W)
    (l : list Event) (o : Outcome unit) :
    on_earth_of w a = false ->
    phase_run func rest w l w' o ->
    phase_run func (a :: rest) w (mkEvent func a false :: l) w' o
| phase_call (a : AgentId) (rest : list AgentId) (w w1 w' : W)
    (l : list Event) (o : Outcome unit) :
    on_earth_of w a = true ->
    call func a w = (w1, Ok tt) ->
    phase_run func rest w1 l w' o ->
    phase_run func (a :: rest) w (mkEvent func a true :: l) w' o
| phase_raise (a : AgentId) (rest : list AgentId) (w w1 : W) (e : Exn) :
    on_earth_of w a = true ->
    call func a w = (w1, Raise e) ->
    phase_run func (a :: rest) w [mkEvent func a true] w1 (Raise e).

(** Phases follow one another: each reads its roster in the world the one
    before has left, and none starts after one that raised. *)
Inductive phases_run
  : list (string * (W -> list AgentId)) -> W -> list Event -> W ->
    Outcome unit -> Prop :=
| phases_done (w : W) :
    phases_run [] w [] w (Ok tt)
| phases_next (func : string) (roster : W -> list AgentId)
    (rest : list (string * (W -> list AgentId))) (w w1 w2 : W)
    (l1 l2 : list Event) (o : Outcome unit) :
    phase_run func (roster w) w l1 w1 (Ok tt) ->
    phases_run rest w1 l2 w2 o ->
    phases_run ((func, roster) :: rest) w (l1 ++ l2) w2 o
| phases_raise (func : string) (roster : W -> list AgentId)
    (rest : list (string * (W -> list AgentId))) (w w1 : W)
    (l1 : list Event) (e : Exn) :
    phase_run func (roster w) w l1 w1 (Raise e) ->
    phases_run ((func, roster) :: rest) w l1 w1 (Raise e).

End Run.

(** The phases of a tick: growth of all, conversion of all, diffusion of
    all, movement of the hunters. *)
Definition tick_plan {W : Type} (actors_of hunters_of : W -> list AgentId)
  : list (string * (W -> list AgentId)) :=
  [("population_growth"%string, actors_of); ("convert"%string, actors_of);
   ("diffuse"%string, actors_of); ("move"%string, hunters_of)].

(** The model with another world, and the model over a world with its
    journal. *)
Definition with_nature {W V : Type} (s : Model W) (w : V) : Model V :=
  {| nature := w; new_farmers := new_farmers s;
     farmers_num := farmers_num s; hunters_num := hunters_num s |}.

(** The calls among the events of a run. *)
Definition calls_of (l : list Event) : list Event :=
  filter (fun e => ev_placed e = true) l.

(** *** What movement and competition leave alone *)

(** From [w] to [w'] no object was created, no group changed its tag, no
    dead group came back, and no group other than a Hunter changed its
    size. *)
Definition evolves (w w' : World) : Prop :=
  length (agents w') = length (agents w)
  /\ forall a : AgentId,
       breed (get w' a) = breed (get w a)
       /\ (alive (get w' a) = true -> alive (get w a) = true)
       /\ (breed (get w a) <> "Hunter"%string -> size (get w' a) = size (get w a)).

(** *** Results within a recursion bound *)

(** Whatever [m1] reaches without exhausting the recursion bound, [m2]
    reaches too: the same world and the same result or exception. *)
Definition within_bound {A : Type} (m1 m2 : M World A) : Prop :=
  forall (w w' : World) (o : Outcome A),
    m1 w = (w', o) -> o <> Raise RecursionError -> m2 w = (w', o).

(** *** The conditions of a conversion *)

(** [cond1 and cond2 and cond3] of [_convert_to_farmer] for a Hunter on cell
    [c], read in the world [w] with the draw number [draws w]. *)
Definition farmer_conditions (env : Env) (w : World) (c : Cell) (radius : nat)
    (moore : bool) : bool :=
  existsb (fun c' => has_agent_breed w c' "Farmer")
          (get_neighboring_cells env c radius moore)
  && is_arable env c
  && Qltb (random_stream env (draws w))
          (default 0 (params.convert_prob (cfg env) !! "to_farmer"%string)).

(** [cond1 and cond2 and cond3] of [_convert_to_rice], likewise. *)
Definition rice_conditions (env : Env) (w : World) (c : Cell) (radius : nat)
    (moore : bool) : bool :=
  existsb (fun c' => has_agent_breed w c' "RiceFarmer")
          (get_neighboring_cells env c radius moore)
  && is_rice_arable env c
  && Qltb (random_stream env (draws w))
          (default 0 (params.convert_prob (cfg env) !! "to_rice"%string)).

(** *** Legacy *)

(** The last part of the claim of equivalence: on groups of the three known
    tags, the legacy [compete] raises an error exactly when the current one
    does. *)
Definition legacy_raises_alike (env : Env)
    (set_size : AgentId -> Q -> World -> World)
    (move_to : AgentId -> M World unit) : Prop :=
  forall (fuel : nat) (self other : AgentId) (w : World),
    breed (get w other) ∈ ["Hunter"; "Farmer"; "RiceFarmer"]%string ->
    (exists e, snd (Legacy.compete env set_size move_to self other w) = Raise e)
    <-> (exists e, snd (compete env fuel self other w) = Raise e).

(** ** Concrete scenarios *)

Module Scenario.

(** The configuration of the scenarios of section 8: settlement threshold
    100, intensification coefficient 1.2, conversion to farmer with
    probability 0.5 (no entry for rice), minimal size 6, loss rate 0.5. *)
Definition cfg0 : params.t :=
  params.mk 100 (6 # 5) {[ "to_farmer"%string := 1 # 2 ]} 6 (1 # 2).

(** A strip of cells [0, 1, 2, ...]: capacity 100 everywhere, every cell
    arable and fit for rice; the neighbours of [c] are [c + 1] alone. *)
Definition env_of (search : World -> AgentId -> Cell -> nat -> option Cell)
    (stream : nat -> Q) : Env :=
  mkEnv cfg0 (fun _ => 100) (fun _ => true) (fun _ => true)
        (fun c _ _ => [S c]) search stream (fun _ _ w => (w, Ok (Some 0%nat))).

(** No place is ever found. *)
Definition nowhere : World -> AgentId -> Cell -> nat -> option Cell :=
  fun _ _ _ _ => None.

(** The next cell of the strip is always proposed. *)
Definition onward : World -> AgentId -> Cell -> nat -> option Cell :=
  fun _ _ c _ => Some (S c).

Definition hunter (s : Q) (c : option Cell) : Agent := mkAgent "Hunter" s true c.
Definition farmer (s : Q) (c : option Cell) : Agent := mkAgent "Farmer" s true c.
Definition rice_farmer (s : Q) (c : option Cell) : Agent :=
  mkAgent "RiceFarmer" s true c.

(** Hunter 0 (size 50) on cell 1, Hunter 1 (size 80) on cell 0. *)
Definition two_hunters : World :=
  mkWorld [hunter 50 (Some 1%nat); hunter 80 (Some 0%nat)]
          {[ 0%nat := [1%nat]; 1%nat := [0%nat] ]} 0.

(** Hunter 0 (size 500) on cell 1, Farmer 1 (size 400) on cell 0. *)
Definition hunter_farmer : World :=
  mkWorld [hunter 500 (Some 1%nat); farmer 400 (Some 0%nat)]
          {[ 0%nat := [1%nat]; 1%nat := [0%nat] ]} 0.

(** Hunter 0 (size 50) on cell 1; on cell 0 a group of a tag the core does
    not know. *)
Definition hunter_stranger : World :=
  mkWorld [hunter 50 (Some 1%nat); mkAgent "Fisher" 10 true (Some 0%nat)]
          {[ 0%nat := [1%nat]; 1%nat := [0%nat] ]} 0.

(** Hunter 0 (size 500, above the threshold) on cell 0. *)
Definition settled_hunter : World :=
  mkWorld [hunter 500 (Some 0%nat)] {[ 0%nat := [0%nat] ]} 0.

(** Hunter 0 (size 50) on cell 0, Farmer 1 (size 400) on cell 1. *)
Definition hunter_by_farmer : World :=
  mkWorld [hunter 50 (Some 0%nat); farmer 400 (Some 1%nat)]
          {[ 0%nat := [0%nat]; 1%nat := [1%nat] ]} 0.

(** Hunter 0 (size 50) on cell 0, RiceFarmer 1 (size 400) on cell 1. *)
Definition hunter_by_rice_farmer : World :=
  mkWorld [hunter 50 (Some 0%nat); rice_farmer 400 (Some 1%nat)]
          {[ 0%nat := [0%nat]; 1%nat := [1%nat] ]} 0.

(** Hunter 0 (size 50) on cell 0; Farmer 1 has died. *)
Definition farmer_gone : World :=
  mkWorld [hunter 50 (Some 0%nat); mkAgent "Farmer" 400 false None]
          {[ 0%nat := [0%nat] ]} 0.

(** No other class takes part. *)
Definition no_others : string -> AgentId -> M World unit :=
  fun _ _ => ret tt.

(** Hunter 0 (size 90) on cell 0, next to Hunter 1 (size 150, above the
    threshold) on cell 1; cell 2 is vacant. *)
Definition mover_and_settled : World :=
  mkWorld [hunter 90 (Some 0%nat); hunter 150 (Some 1%nat)]
          {[ 0%nat := [0%nat]; 1%nat := [1%nat] ]} 0.

End Scenario.

(** * Properties *)

(** ** Heap and occupancy lemmas *)

Lemma get_upd_ne (a a' : AgentId) (f : Agent -> Agent) (w : World) :
  a <> a' -> get (upd a f w) a' = get w a'.
Proof.
  intros Hne. unfold get, upd; simpl.
  by rewrite list_lookup_alter_ne.
Qed.

Lemma get_upd_eq (a : AgentId) (f : Agent -> Agent) (w : World) :
  (a < length (agents w))%nat -> get (upd a f w) a = f (get w a).
Proof.
  intros Hlt. unfold get, upd; simpl.
  rewrite list_lookup_alter_eq.
  destruct (lookup_lt_is_Some_2 _ _ Hlt) as [x ->]. reflexivity.
Qed.

(** A field that [f] leaves alone reads the same after [upd a f], for every
    agent, inside or outside the heap. *)
Lemma get_upd_field {B : Type} (p : Agent -> B) (a a' : AgentId)
    (f : Agent -> Agent) (w : World) :
  (forall ag, p (f ag) = p ag) -> p (get (upd a f w) a') = p (get w a').
Proof.
  intros Hp. destruct (decide (a = a')) as [->|Hne].
  - unfold get, upd; simpl. rewrite list_lookup_alter_eq.
    destruct (agents w !! a'); simpl; [apply Hp | done].
  - by rewrite get_upd_ne.
Qed.

Lemma get_set_occ (c : Cell) (l : list AgentId) (w : World) (a : AgentId) :
  get (set_occ c l w) a = get w a.
Proof. done. Qed.

Lemma get_leave_cell (a a' : AgentId) (w : World) :
  get (leave_cell a w) a' = get w a'.
Proof. unfold leave_cell. by destruct (_cell (get w a)). Qed.

Lemma alive_in_heap (w : World) (a : AgentId) :
  alive (get w a) = true -> (a < length (agents w))%nat.
Proof.
  unfold get. intros H. apply lookup_lt_is_Some.
  destruct (agents w !! a); [eauto | discriminate].
Qed.

Lemma farmer_kind_iff (b : string) :
  b ∈ ["Farmer"; "RiceFarmer"]%string <->
  b = "Farmer"%string \/ b = "RiceFarmer"%string.
Proof. set_unfold. tauto. Qed.

Lemma hunter_not_farmer_kind (b : string) :
  b = "Hunter"%string -> b ∉ ["Farmer"; "RiceFarmer"]%string.
Proof. intros ->. rewrite farmer_kind_iff. intros [H | H]; discriminate. Qed.

Lemma Qgeb_true (a b : Q) : Qgeb a b = true <-> (b <= a)%Q.
Proof. apply Qle_bool_iff. Qed.

Lemma Qltb_true (a b : Q) : Qltb a b = true <-> (a < b)%Q.
Proof.
  unfold Qltb. rewrite negb_true_iff, <- not_true_iff_false, Qle_bool_iff.
  split; [apply Qnot_le_lt | apply Qlt_not_le].
Qed.

Lemma Qgtb_true (a b : Q) : Qgtb a b = true <-> (b < a)%Q.
Proof. apply (Qltb_true b a). Qed.

(** ** Competition: who wins and who pays (C1) *)

(** C1.  [compete(self, other)] against a Hunter is won by [self] exactly when
    [other.size <= self.size]; against a Farmer or RiceFarmer exactly when
    [other.size <= self.size * intensified_coefficient].  Equality counts as a
    win of [self].  The call is the loss penalty applied to the losing side
    ([other] on a win, [self] on a defeat) followed by the return of the
    verdict, so that it returns precisely when the penalty does. *)
Theorem compete_verdict (env : Env) (fuel : nat) (self other : AgentId) (w : World) :
  (breed (get w other) = "Hunter"%string ->
   exists b : bool,
     (b = true <-> size (get w other) <= size (get w self)) /\
     compete env fuel self other w =
       (_loss_competition env fuel self (if b then other else self) ;; ret b) w)
  /\
  (breed (get w other) = "Farmer"%string \/ breed (get w other) = "RiceFarmer"%string ->
   exists b : bool,
     (b = true <->
      size (get w other)
        <= size (get w self) * params.intensified_coefficient (cfg env)) /\
     compete env fuel self other w =
       (_loss_competition env fuel self (if b then other else self) ;; ret b) w).
Proof.
  split.
  - intros Hb.
    exists (Qgeb (size (get w self)) (size (get w other))). split.
    + apply Qgeb_true.
    + unfold compete, compete_with. rewrite Hb.
      rewrite bool_decide_eq_false_2 by (by apply hunter_not_farmer_kind).
      simpl. unfold _compete_with_hunter_with.
      by destruct (Qgeb _ _).
  - intros Hb.
    exists (Qgeb (size (get w self) * params.intensified_coefficient (cfg env))
                 (size (get w other))). split.
    + apply Qgeb_true.
    + unfold compete, compete_with.
      rewrite bool_decide_eq_true_2 by (by apply farmer_kind_iff).
      unfold _compete_with_farmer_with.
      by destruct (Qgeb _ _).
Qed.

Lemma compete_verdict_witness :
  exists b : bool,
    (b = true <->
     size (get Scenario.hunter_farmer 1%nat)
       <= size (get Scenario.hunter_farmer 0%nat)
          * params.intensified_coefficient Scenario.cfg0) /\
    compete (Scenario.env_of Scenario.nowhere (fun _ => 0)) 0 0%nat 1%nat
            Scenario.hunter_farmer =
      (_loss_competition (Scenario.env_of Scenario.nowhere (fun _ => 0)) 0 0%nat
         (if b then 1%nat else 0%nat) ;; ret b) Scenario.hunter_farmer.
Proof.
  apply (proj2 (compete_verdict (Scenario.env_of Scenario.nowhere (fun _ => 0))
                                0 0%nat 1%nat Scenario.hunter_farmer)).
  left. reflexivity.
Defined.

(** ** Unknown strategy tags (C6) *)

(** C6.  When the tag of [other] is none of Hunter, Farmer and RiceFarmer,
    [compete(self, other)] raises TypeError (the InvalidAgentKind error) and
    leaves the world exactly as it found it; so does the loss penalty for a
    loser of such a tag.  Nothing in the core catches the error: [put_on]
    onto a cell whose first occupant has such a tag raises it in turn, after
    the placement, and so does a [move] that leads there. *)
Theorem compete_invalid_kind (env : Env) (fuel : nat) (self other : AgentId) (w : World) :
  breed (get w other) ∉ ["Hunter"; "Farmer"; "RiceFarmer"]%string ->
  compete env fuel self other w = (w, Raise TypeError)
  /\ _loss_competition env fuel self other w = (w, Raise TypeError)
  /\ (forall (w0 : World) (arriving : AgentId) (c : Cell) (rest : list AgentId),
        cell_agents w0 c = other :: rest ->
        base_put_on arriving (Some c) w0 = w ->
        put_on env fuel arriving (Some c) w0 = (w, Raise TypeError)
        /\ (is_complex env w0 arriving = false ->
            forall (c0 : Cell) (radius : nat),
              _cell (get w0 arriving) = Some c0 ->
              search_a_new_place env w0 arriving c0 radius = Some c ->
              move env fuel arriving radius w0 = (w, Raise TypeError))).
Proof.
  intros Hb.
  assert (Hf : bool_decide (breed (get w other) ∈ ["Farmer"; "RiceFarmer"]%string) = false).
  { apply bool_decide_eq_false_2. intros Hin. apply Hb. set_unfold. tauto. }
  assert (Hh : String.eqb (breed (get w other)) "Hunter" = false).
  { apply String.eqb_neq. intros Heq. apply Hb. set_unfold. tauto. }
  assert (Hc : compete env fuel self other w = (w, Raise TypeError)).
  { unfold compete, compete_with. by rewrite Hf, Hh. }
  split; [exact Hc |]. split.
  { unfold _loss_competition, _loss_competition_with. by rewrite Hf, Hh. }
  intros w0 arriving c rest Hocc Hput.
  assert (Hp : put_on env fuel arriving (Some c) w0 = (w, Raise TypeError)).
  { unfold put_on, put_on_with, has_agent. rewrite Hocc, Hput. simpl.
    unfold bind, compete_with. by rewrite Hf, Hh. }
  split; [exact Hp |].
  intros Hcx c0 radius Hc0 Hs.
  destruct fuel as [| f]; simpl;
    unfold on_earth; rewrite Hcx, Hc0; simpl; rewrite Hs;
    unfold bind at 1; unfold put_on, nested_move in Hp; rewrite Hp; reflexivity.
Qed.

(** ** Movement (C7) *)

(** C7.  [move()] of a complex or unplaced Hunter returns false and leaves the
    world untouched, and so does a search that finds no cell.  It returns true
    only for a placed, non-complex Hunter whose search found a cell, after
    [put_on] that cell; and for such a Hunter it is [put_on] of the cell found
    followed by the return of true. *)
Theorem move_only_mobile_placed (env : Env) (fuel : nat) (self : AgentId)
    (radius : nat) (w : World) :
  (is_complex env w self = true \/ on_earth w self = false ->
   move env fuel self radius w = (w, Ok false))
  /\ (forall c : Cell,
        _cell (get w self) = Some c ->
        search_a_new_place env w self c radius = None ->
        move env fuel self radius w = (w, Ok false))
  /\ (forall w' : World,
        move env fuel self radius w = (w', Ok true) ->
        is_complex env w self = false /\
        exists c cell : Cell,
          _cell (get w self) = Some c /\
          search_a_new_place env w self c radius = Some cell /\
          put_on env fuel self (Some cell) w = (w', Ok tt))
  /\ (forall c cell : Cell,
        is_complex env w self = false ->
        _cell (get w self) = Some c ->
        search_a_new_place env w self c radius = Some cell ->
        move env fuel self radius w =
          (put_on env fuel self (Some cell) ;; ret true) w).
Proof.
  assert (Hmove : move env fuel self radius w =
    if negb (is_complex env w self) && on_earth w self then
      match _cell (get w self) ≫= (fun c => search_a_new_place env w self c radius) with
      | Some cell => (put_on env fuel self (Some cell) ;; ret true) w
      | None => (w, Ok false)
      end
    else (w, Ok false)).
  { destruct fuel; reflexivity. }
  rewrite Hmove. clear Hmove. repeat split.
  - intros [-> | ->]; [reflexivity | by rewrite andb_false_r].
  - intros c Hc Hs. rewrite Hc; simpl. rewrite Hs. by destruct (_ && _).
  - destruct (is_complex env w self); [discriminate | reflexivity].
  - revert H. unfold on_earth.
    destruct (is_complex env w self); simpl; [discriminate |].
    destruct (_cell (get w self)) as [c |]; simpl; [| discriminate].
    destruct (search_a_new_place env w self c radius) as [cell |] eqn:Hs;
      [| discriminate].
    unfold bind.
    destruct (put_on env fuel self (Some cell) w) as [w1 [[] | e]] eqn:Hp;
      [| discriminate].
    intros [= ->]. by exists c, cell.
  - intros c cell -> Hc Hs. unfold on_earth. rewrite Hc; simpl. by rewrite Hs.
Qed.

Lemma compete_invalid_kind_witness :
  compete (Scenario.env_of Scenario.nowhere (fun _ => 0)) 0 0%nat 1%nat
          Scenario.hunter_stranger
  = (Scenario.hunter_stranger, Raise TypeError).
Proof.
  apply (compete_invalid_kind (Scenario.env_of Scenario.nowhere (fun _ => 0))
                              0 0%nat 1%nat Scenario.hunter_stranger).
  simpl. set_unfold. intros [H | [H | [H | H]]]; done.
Defined.

Lemma move_only_mobile_placed_witness :
  move (Scenario.env_of Scenario.onward (fun _ => 0)) 3 0%nat 1
       Scenario.settled_hunter
  = (Scenario.settled_hunter, Ok false).
Proof.
  apply (move_only_mobile_placed (Scenario.env_of Scenario.onward (fun _ => 0))
                                 3 0%nat 1%nat Scenario.settled_hunter).
  left. reflexivity.
Defined.

(** ** Diffusion (C8) *)

Lemma Qgeb_false (a b : Q) : Qgeb a b = false <-> (a < b)%Q.
Proof.
  unfold Qgeb. rewrite <- not_true_iff_false, Qle_bool_iff.
  split; [apply Qnot_le_lt | apply Qlt_not_le].
Qed.

(** C8.  While [size < max_size], [diffuse()] creates no group and changes
    nothing in the world, the parent's size included.  [max_size] of a placed
    Hunter is the ceiling of [lim_h] of its cell, the least integer not below
    it; of an unplaced Hunter it is 100,000,000. *)
Theorem diffuse_below_max (env : Env) (self : AgentId)
    (group_range : option (Q * Q)) (w : World) :
  (size (get w self) < max_size env w self ->
   diffuse env self group_range w = (w, Ok None))
  /\ (forall c : Cell,
        _cell (get w self) = Some c ->
        max_size env w self = inject_Z (Qceiling (lim_h env c))
        /\ lim_h env c <= max_size env w self
        /\ max_size env w self < lim_h env c + 1)
  /\ (_cell (get w self) = None -> max_size env w self = 100000000).
Proof.
  split; [| split].
  - intros Hlt. unfold diffuse.
    by rewrite (proj2 (Qgeb_false _ _) Hlt).
  - intros c Hc. unfold max_size, np_ceil. rewrite Hc.
    split; [reflexivity |]. split; [apply Qle_ceiling |].
    pose proof (Qceiling_lt (lim_h env c)) as Hlt.
    unfold Z.sub in Hlt. rewrite inject_Z_plus in Hlt.
    apply (proj1 (Qplus_lt_l _ _ (inject_Z (-1)))).
    setoid_replace (lim_h env c + 1 + inject_Z (-1)) with (lim_h env c)
      using relation Qeq by (unfold inject_Z; ring).
    exact Hlt.
  - intros Hc. unfold max_size. by rewrite Hc.
Qed.

Lemma diffuse_below_max_witness :
  diffuse (Scenario.env_of Scenario.nowhere (fun _ => 0)) 0%nat None
          Scenario.two_hunters
  = (Scenario.two_hunters, Ok None).
Proof.
  apply (diffuse_below_max (Scenario.env_of Scenario.nowhere (fun _ => 0))
                           0%nat None Scenario.two_hunters).
  reflexivity.
Defined.

(** ** Conversion (C9, C3) *)

Lemma Qltb_zero_false (x : Q) : 0 <= x -> Qltb x 0 = false.
Proof.
  intros H. unfold Qltb. apply negb_false_iff. by apply Qle_bool_iff.
Qed.

(** C9.  When [convert_prob] has no entry for a path, the path compares its
    draw with 0.0; a draw of [0, 1) is never below it, so the path returns
    [self] with nothing changed but the draw consumed, whatever the
    neighbours and the arability (an unplaced Hunter has no cell to ask and
    the call raises before drawing). *)
Theorem convert_prob_missing (env : Env) (self : AgentId) (radius : nat)
    (moore : bool) (w : World) :
  0 <= random_stream env (draws w) /\ random_stream env (draws w) < 1 ->
  (params.convert_prob (cfg env) !! "to_farmer"%string = None ->
   _convert_to_farmer env self radius moore w =
     match _cell (get w self) with
     | Some _ => (drawn w, Ok self)
     | None => (w, Raise AttributeError)
     end)
  /\ (params.convert_prob (cfg env) !! "to_rice"%string = None ->
      _convert_to_rice env self radius moore w =
        match _cell (get w self) with
        | Some _ => (drawn w, Ok self)
        | None => (w, Raise AttributeError)
        end).
Proof.
  intros [Hx _]. split; intros Hk.
  - unfold _convert_to_farmer. destruct (_cell (get w self)); [| reflexivity].
    rewrite Hk; simpl. rewrite (Qltb_zero_false _ Hx).
    by rewrite !andb_false_r.
  - unfold _convert_to_rice. destruct (_cell (get w self)); [| reflexivity].
    rewrite Hk; simpl. rewrite (Qltb_zero_false _ Hx).
    by rewrite !andb_false_r.
Qed.

Lemma convert_prob_missing_witness :
  _convert_to_rice (Scenario.env_of Scenario.nowhere (fun _ => 2 # 5)) 0%nat 1 false
                   Scenario.hunter_by_rice_farmer
  = (drawn Scenario.hunter_by_rice_farmer, Ok 0%nat).
Proof.
  apply (convert_prob_missing (Scenario.env_of Scenario.nowhere (fun _ => 2 # 5))
                              0%nat 1%nat false Scenario.hunter_by_rice_farmer).
  - split; reflexivity || discriminate.
  - reflexivity.
Defined.

Lemma placed_in_heap (w : World) (a : AgentId) (c : Cell) :
  _cell (get w a) = Some c -> (a < length (agents w))%nat.
Proof.
  unfold get. intros H. apply lookup_lt_is_Some.
  destruct (agents w !! a); [eauto | discriminate].
Qed.

Lemma length_agents_die (a : AgentId) (w : World) :
  length (agents (die a w)) = length (agents w).
Proof.
  unfold die, upd, leave_cell; simpl. rewrite length_alter.
  by destruct (_cell (get w a)).
Qed.

Lemma cell_convert_new (c : Cell) (a : AgentId) (to : string) (w : World) :
  snd (cell_convert c a to w) = length (agents w)
  /\ length (agents (fst (cell_convert c a to w))) = S (length (agents w))
  /\ draws (fst (cell_convert c a to w)) = draws w.
Proof.
  unfold cell_convert. cbn [fst snd agents draws].
  rewrite length_app, !length_agents_die. cbn [length].
  repeat split; [lia |].
  unfold die, upd, leave_cell; simpl. by destruct (_cell (get w a)).
Qed.

(** What a conversion path can return: [self] after its draw, or the new
    object that the cell made of [self] after that draw. *)
Lemma _convert_to_farmer_cases (env : Env) (self : AgentId) (radius : nat)
    (moore : bool) (w w1 : World) (agent : AgentId) :
  _convert_to_farmer env self radius moore w = (w1, Ok agent) ->
  (agent = self /\ w1 = drawn w)
  \/ (agent = length (agents w) /\ (self < agent)%nat /\
      exists c, _cell (get w self) = Some c /\
                w1 = fst (cell_convert c self "Farmer" (drawn w))).
Proof.
  unfold _convert_to_farmer.
  destruct (_cell (get w self)) as [c |] eqn:Hc; [| discriminate].
  change (random (random_stream env) w)
    with (drawn w, random_stream env (draws w)).
  cbv beta iota zeta. destruct (_ && _ && _).
  - destruct (cell_convert c self "Farmer" (drawn w)) as [w2 new] eqn:Hcv.
    intros [= <- <-]. right.
    pose proof (cell_convert_new c self "Farmer" (drawn w)) as [Hn _].
    rewrite Hcv in Hn; simpl in Hn. subst new.
    split; [reflexivity |]. split; [by eapply placed_in_heap |].
    exists c. by rewrite Hcv.
  - intros [= <- <-]. by left.
Qed.

Lemma _convert_to_rice_cases (env : Env) (self : AgentId) (radius : nat)
    (moore : bool) (w w1 : World) (agent : AgentId) :
  _convert_to_rice env self radius moore w = (w1, Ok agent) ->
  (agent = self /\ w1 = drawn w)
  \/ (agent = length (agents w) /\ (self < agent)%nat /\
      exists c, _cell (get w self) = Some c /\
                w1 = fst (cell_convert c self "RiceFarmer" (drawn w))).
Proof.
  unfold _convert_to_rice.
  destruct (_cell (get w self)) as [c |] eqn:Hc; [| discriminate].
  change (random (random_stream env) w)
    with (drawn w, random_stream env (draws w)).
  cbv beta iota zeta. destruct (_ && _ && _).
  - destruct (cell_convert c self "RiceFarmer" (drawn w)) as [w2 new] eqn:Hcv.
    intros [= <- <-]. right.
    pose proof (cell_convert_new c self "RiceFarmer" (drawn w)) as [Hn _].
    rewrite Hcv in Hn; simpl in Hn. subst new.
    split; [reflexivity |]. split; [by eapply placed_in_heap |].
    exists c. by rewrite Hcv.
  - intros [= <- <-]. by left.
Qed.

(** A path reads the generator at the current position only. *)
Lemma _convert_to_farmer_stream (env : Env) (s1 s2 : nat -> Q) (self : AgentId)
    (radius : nat) (moore : bool) (w : World) :
  s1 (draws w) = s2 (draws w) ->
  _convert_to_farmer (with_stream s1 env) self radius moore w =
  _convert_to_farmer (with_stream s2 env) self radius moore w.
Proof. intros H. unfold _convert_to_farmer; simpl. by rewrite H. Qed.

Lemma _convert_to_rice_stream (env : Env) (s1 s2 : nat -> Q) (self : AgentId)
    (radius : nat) (moore : bool) (w : World) :
  s1 (draws w) = s2 (draws w) ->
  _convert_to_rice (with_stream s1 env) self radius moore w =
  _convert_to_rice (with_stream s2 env) self radius moore w.
Proof. intros H. unfold _convert_to_rice; simpl. by rewrite H. Qed.

(** A path raises only for an unplaced Hunter, before anything is done, and
    returns for a placed one. *)
Lemma _convert_to_farmer_total (env : Env) (self : AgentId) (radius : nat)
    (moore : bool) (w : World) :
  match _cell (get w self) with
  | Some _ => exists w1 agent,
      _convert_to_farmer env self radius moore w = (w1, Ok agent)
  | None => _convert_to_farmer env self radius moore w = (w, Raise AttributeError)
  end.
Proof.
  unfold _convert_to_farmer. destruct (_cell (get w self)) as [c |]; [| done].
  change (random (random_stream env) w)
    with (drawn w, random_stream env (draws w)).
  cbv beta iota zeta. destruct (_ && _ && _); [| by eauto].
  destruct (cell_convert c self "Farmer" (drawn w)). by eauto.
Qed.

Lemma _convert_to_rice_total (env : Env) (self : AgentId) (radius : nat)
    (moore : bool) (w : World) :
  match _cell (get w self) with
  | Some _ => exists w1 agent,
      _convert_to_rice env self radius moore w = (w1, Ok agent)
  | None => _convert_to_rice env self radius moore w = (w, Raise AttributeError)
  end.
Proof.
  unfold _convert_to_rice. destruct (_cell (get w self)) as [c |]; [| done].
  change (random (random_stream env) w)
    with (drawn w, random_stream env (draws w)).
  cbv beta iota zeta. destruct (_ && _ && _); [| by eauto].
  destruct (cell_convert c self "RiceFarmer" (drawn w)). by eauto.
Qed.

Lemma convert_unfold (env : Env) (self : AgentId) (radius : nat) (moore : bool)
    (w : World) :
  convert env self radius moore w =
    match _convert_to_farmer env self radius moore w with
    | (w1, Ok agent) =>
        if decide (agent = self) then _convert_to_rice env self radius moore w1
        else (w1, Ok agent)
    | (w1, Raise e) => (w1, Raise e)
    end.
Proof.
  unfold convert.
  destruct (_convert_to_farmer env self radius moore w) as [w1 [agent | e]]; [| done].
  destruct (decide (agent = self)) as [-> | Hne].
  - by rewrite Nat.eqb_refl.
  - by rewrite (proj2 (Nat.eqb_neq _ _) Hne).
Qed.

(** C3.  [convert()] runs the farmer path first, on the world as it finds it.
    If that path converted (it returned another object than [self]),
    [convert()] returns that object at once: one draw was consumed, one object
    was created, and the rice path was not run.  Otherwise the farmer path
    has only consumed its draw, and [convert()] is the rice path run from
    there, on the next draw.  The heap grows by at most one object, so the two
    paths never both convert.  The outcome depends on the generator through
    draw number [draws w] (farmer path) and draw number [draws w + 1] (rice
    path) only.  When [convert()] returns [self], nothing has changed but the
    two draws consumed.  For a placed Hunter [convert()] returns. *)
Theorem convert_farmer_before_rice (env : Env) (self : AgentId) (radius : nat)
    (moore : bool) (w : World) :
  (forall w1 agent,
     _convert_to_farmer env self radius moore w = (w1, Ok agent) ->
     agent <> self ->
     convert env self radius moore w = (w1, Ok agent)
     /\ draws w1 = S (draws w)
     /\ length (agents w1) = S (length (agents w)))
  /\ (forall w1,
        _convert_to_farmer env self radius moore w = (w1, Ok self) ->
        w1 = drawn w
        /\ convert env self radius moore w =
             _convert_to_rice env self radius moore (drawn w))
  /\ (forall w2,
        convert env self radius moore w = (w2, Ok self) ->
        w2 = drawn (drawn w) /\ get w2 self = get w self)
  /\ (length (agents (fst (convert env self radius moore w)))
        <= S (length (agents w)))%nat
  /\ (forall s1 s2 : nat -> Q,
        s1 (draws w) = s2 (draws w) ->
        s1 (S (draws w)) = s2 (S (draws w)) ->
        convert (with_stream s1 env) self radius moore w =
        convert (with_stream s2 env) self radius moore w)
  /\ (on_earth w self = true ->
      exists w' agent, convert env self radius moore w = (w', Ok agent)).
Proof.
  repeat apply conj.
  - intros w1 agent Hf Hne. rewrite convert_unfold, Hf.
    destruct (decide (agent = self)); [done |].
    split; [reflexivity |].
    destruct (_convert_to_farmer_cases _ _ _ _ _ _ _ Hf)
      as [[? _] | (_ & _ & c & _ & ->)]; [done |].
    pose proof (cell_convert_new c self "Farmer" (drawn w)) as (_ & Hl & Hd).
    by rewrite Hl, Hd.
  - intros w1 Hf.
    destruct (_convert_to_farmer_cases _ _ _ _ _ _ _ Hf)
      as [[_ ->] | (-> & Hlt & _)]; [| lia].
    split; [reflexivity |].
    rewrite convert_unfold, Hf. by rewrite decide_True.
  - intros w2. rewrite convert_unfold.
    destruct (_convert_to_farmer env self radius moore w)
      as [w1 [agent | e]] eqn:Hf; [| discriminate].
    destruct (decide (agent = self)) as [-> | Hne]; [| congruence].
    destruct (_convert_to_farmer_cases _ _ _ _ _ _ _ Hf)
      as [[_ ->] | (-> & Hlt & _)]; [| lia].
    intros Hr.
    destruct (_convert_to_rice_cases _ _ _ _ _ _ _ Hr)
      as [[_ ->] | (Heq & Hlt & _)]; [done | lia].
  - rewrite convert_unfold.
    destruct (_convert_to_farmer env self radius moore w)
      as [w1 [agent | e]] eqn:Hf.
    + destruct (_convert_to_farmer_cases _ _ _ _ _ _ _ Hf)
        as [[-> ->] | (-> & Hlt & c & _ & ->)].
      * rewrite decide_True by done.
        destruct (_convert_to_rice env self radius moore (drawn w))
          as [w2 [agent | e]] eqn:Hr.
        -- destruct (_convert_to_rice_cases _ _ _ _ _ _ _ Hr)
             as [[-> ->] | (-> & _ & c & _ & ->)]; [simpl; lia |].
           pose proof (cell_convert_new c self "RiceFarmer" (drawn (drawn w)))
             as (_ & Hl & _).
           cbn [fst]. rewrite Hl. simpl. lia.
        -- pose proof (_convert_to_rice_total env self radius moore (drawn w)) as Ht.
           destruct (_cell (get (drawn w) self)).
           ++ destruct Ht as (? & ? & Ht). congruence.
           ++ rewrite Hr in Ht. injection Ht as -> _. simpl. lia.
      * rewrite decide_False by lia.
        pose proof (cell_convert_new c self "Farmer" (drawn w)) as (_ & Hl & _).
        cbn [fst]. rewrite Hl. simpl. lia.
    + pose proof (_convert_to_farmer_total env self radius moore w) as Ht.
      destruct (_cell (get w self)).
      * destruct Ht as (? & ? & Ht). congruence.
      * rewrite Hf in Ht. injection Ht as -> _. simpl. lia.
  - intros s1 s2 H0 H1. rewrite !convert_unfold.
    rewrite (_convert_to_farmer_stream env s1 s2) by done.
    destruct (_convert_to_farmer (with_stream s2 env) self radius moore w)
      as [w1 [agent | e]] eqn:Hf; [| done].
    destruct (decide (agent = self)) as [-> | Hne]; [| done].
    destruct (_convert_to_farmer_cases _ _ _ _ _ _ _ Hf)
      as [[_ ->] | (-> & Hlt & _)]; [| lia].
    by apply _convert_to_rice_stream.
  - unfold on_earth. intros Hp. rewrite convert_unfold.
    pose proof (_convert_to_farmer_total env self radius moore w) as Ht.
    destruct (_cell (get w self)) as [c |] eqn:Hc; [| discriminate].
    destruct Ht as (w1 & agent & Hf). rewrite Hf.
    destruct (decide (agent = self)) as [-> | Hne]; [| by eauto].
    destruct (_convert_to_farmer_cases _ _ _ _ _ _ _ Hf)
      as [[_ ->] | (-> & Hlt & _)]; [| lia].
    pose proof (_convert_to_rice_total env self radius moore (drawn w)) as Hr.
    change (get (drawn w) self) with (get w self) in Hr. by rewrite Hc in Hr.
Qed.

Lemma convert_farmer_before_rice_witness :
  convert (Scenario.env_of Scenario.nowhere (fun _ => 2 # 5)) 0%nat 1 false
          Scenario.hunter_by_farmer
  = (fst (_convert_to_farmer (Scenario.env_of Scenario.nowhere (fun _ => 2 # 5))
                             0%nat 1 false Scenario.hunter_by_farmer),
     Ok 2%nat)
  /\ draws (fst (_convert_to_farmer (Scenario.env_of Scenario.nowhere (fun _ => 2 # 5))
                                    0%nat 1 false Scenario.hunter_by_farmer))
     = 1%nat
  /\ length (agents (fst (_convert_to_farmer
                            (Scenario.env_of Scenario.nowhere (fun _ => 2 # 5))
                            0%nat 1 false Scenario.hunter_by_farmer)))
     = 3%nat.
Proof.
  apply (proj1 (convert_farmer_before_rice
                  (Scenario.env_of Scenario.nowhere (fun _ => 2 # 5))
                  0%nat 1%nat false Scenario.hunter_by_farmer)).
  - vm_compute. reflexivity.
  - discriminate.
Defined.

(** ** The loss penalty (C2) *)

Lemma fst_bind_ret {St A B : Type} (m : M St A) (b : B) (s : St) :
  fst ((m ;; ret b) s) = fst (m s).
Proof. unfold bind, ret. by destruct (m s) as [s' [a | e]]. Qed.

Lemma is_complex_get (env : Env) (w w' : World) (a : AgentId) :
  get w' a = get w a -> is_complex env w' a = is_complex env w a.
Proof. unfold is_complex. by intros ->. Qed.

Lemma on_earth_get (w w' : World) (a : AgentId) :
  get w' a = get w a -> on_earth w' a = on_earth w a.
Proof. unfold on_earth. by intros ->. Qed.

Lemma get_die_ne (a a' : AgentId) (w : World) :
  a <> a' -> get (die a w) a' = get w a'.
Proof. intros Hne. unfold die. by rewrite get_upd_ne, get_leave_cell. Qed.

Lemma alive_die (a : AgentId) (w : World) : alive (get (die a w) a) = false.
Proof.
  unfold die, get, upd; simpl. rewrite list_lookup_alter_eq.
  by destruct (agents (leave_cell a w) !! a).
Qed.

Lemma get_set_size_ne (env : Env) (a a' : AgentId) (v : Q) (w : World) :
  a <> a' -> get (set_size env a v w) a' = get w a'.
Proof. intros Hne. unfold set_size. by rewrite get_upd_ne. Qed.

Lemma get_set_size_field {B : Type} (p : Agent -> B) (env : Env) (a a' : AgentId)
    (v : Q) (w : World) :
  (forall x ag, p (with_size x ag) = p ag) ->
  p (get (set_size env a v w) a') = p (get w a').
Proof. intros Hp. unfold set_size. by apply get_upd_field. Qed.

Lemma get_base_put_on_ne (a a' : AgentId) (cell : option Cell) (w : World) :
  a <> a' -> get (base_put_on a cell w) a' = get w a'.
Proof.
  intros Hne. unfold base_put_on.
  destruct cell; rewrite get_upd_ne by done;
    by rewrite ?get_set_occ, get_leave_cell.
Qed.

Lemma get_base_put_on_field {B : Type} (p : Agent -> B) (a a' : AgentId)
    (cell : option Cell) (w : World) :
  (forall c ag, p (with_cell c ag) = p ag) ->
  p (get (base_put_on a cell w) a') = p (get w a').
Proof.
  intros Hp. unfold base_put_on.
  destruct cell; rewrite get_upd_field by done;
    by rewrite ?get_set_occ, get_leave_cell.
Qed.

Lemma get_base_put_on_eq (a : AgentId) (cell : option Cell) (w : World) :
  (a < length (agents w))%nat ->
  get (base_put_on a cell w) a = with_cell cell (get w a).
Proof.
  intros Hlt. unfold base_put_on.
  assert (Hl : (a < length (agents (leave_cell a w)))%nat).
  { unfold leave_cell. by destruct (_cell (get w a)). }
  destruct cell; rewrite get_upd_eq by done;
    by rewrite ?get_set_occ, get_leave_cell.
Qed.

(** *** A non-complex Hunter survives whatever a defeat sets off

    A defeat sets off a chain: the loser moves, its arrival starts a
    competition, the loser of that one moves, and so on.  Along the chain a
    live Hunter [A] that is not complex is never killed: the only deaths are
    those of Farmers, RiceFarmers and complex Hunters, and [A]'s size changes
    only when [A] itself loses, after which the chain goes on through [A]'s
    own [move()], which does nothing if [A] has become complex. *)
Section Survival.

Variable env : Env.
Variable A : AgentId.

Lemma lives_get (w w' : World) :
  alive (get w' A) = alive (get w A) ->
  breed (get w' A) = breed (get w A) ->
  lives A w -> lives A w'.
Proof. unfold lives. by intros -> ->. Qed.

Lemma lives_die (L : AgentId) (w : World) : L <> A -> lives A w -> lives A (die L w).
Proof. intros Hne. apply lives_get; by rewrite get_die_ne. Qed.

Lemma lives_set_size (L : AgentId) (v : Q) (w : World) :
  lives A w -> lives A (set_size env L v w).
Proof. apply lives_get; by apply get_set_size_field. Qed.

Lemma lives_base_put_on (X : AgentId) (cell : option Cell) (w : World) :
  lives A w -> lives A (base_put_on X cell w).
Proof. apply lives_get; by apply get_base_put_on_field. Qed.

Section Open.

Variable move_rec : AgentId -> nat -> M World bool.
Hypothesis Hrec : keeps env A move_rec.

Lemma _loss_competition_keeps (self L : AgentId) (w : World) :
  lives A w -> is_complex env w A = false ->
  lives A (fst (_loss_competition_with env move_rec self L w)).
Proof.
  intros Hl Hc. unfold _loss_competition_with.
  case_bool_decide as Hf.
  - simpl. apply lives_die; [| done]. intros ->.
    destruct Hl as [_ Hb]. by apply (hunter_not_farmer_kind _ Hb).
  - destruct (String.eqb (breed (get w L)) "Hunter"); [| done].
    destruct (is_complex env w L) eqn:HcL.
    + simpl. apply lives_die; [| done]. intros ->. congruence.
    + set (w1 := set_size env L _ w).
      assert (Hl1 : lives A w1) by by apply lives_set_size.
      destruct (on_earth w1 L); [| done].
      rewrite fst_bind_ret. apply Hrec; [done |].
      destruct (decide (L = A)) as [-> | Hne]; [by right | left].
      rewrite <- Hc. apply is_complex_get. by apply get_set_size_ne.
Qed.

Lemma compete_keeps (self other : AgentId) (w : World) :
  lives A w -> is_complex env w A = false ->
  lives A (fst (compete_with env move_rec self other w)).
Proof.
  intros Hl Hc. unfold compete_with.
  case_bool_decide.
  - unfold _compete_with_farmer_with.
    destruct (Qgeb _ _); rewrite fst_bind_ret; by apply _loss_competition_keeps.
  - destruct (String.eqb _ _); [| done].
    unfold _compete_with_hunter_with.
    destruct (Qgeb _ _); rewrite fst_bind_ret; by apply _loss_competition_keeps.
Qed.

Lemma put_on_keeps (X : AgentId) (c : Cell) (w : World) :
  lives A w -> is_complex env w A = false ->
  (X = A -> on_earth w A = true) ->
  lives A (fst (put_on_with env move_rec X (Some c) w)).
Proof.
  intros Hl Hc Hp. unfold put_on_with.
  set (w1 := base_put_on X (Some c) w).
  assert (Hl1 : lives A w1) by by apply lives_base_put_on.
  assert (Hc1 : is_complex env w1 A = false).
  { destruct (decide (X = A)) as [-> | Hne].
    - specialize (Hp eq_refl). revert Hc Hp. unfold is_complex, on_earth, w1.
      rewrite get_base_put_on_eq by (apply alive_in_heap, Hl). simpl.
      by destruct (_cell (get w A)).
    - rewrite <- Hc. apply is_complex_get. by apply get_base_put_on_ne. }
  destruct (if has_agent w c then head (cell_agents w c) else None); [| done].
  rewrite fst_bind_ret. by apply compete_keeps.
Qed.

End Open.

Lemma move_keeps (fuel : nat) : keeps env A (move env fuel).
Proof.
  induction fuel as [| f IH]; intros X r w Hl Hd; simpl;
    destruct (is_complex env w X) eqn:HcX; simpl; try done;
    destruct (on_earth w X) eqn:HpX; simpl; try done;
    destruct (_cell (get w X) ≫= _); try done;
    rewrite fst_bind_ret; apply put_on_keeps; try done;
    try (by destruct Hd as [? | ->]); try (by intros <-).
  intros Y r' w' Hl' _. done.
Qed.

Lemma nested_move_keeps (fuel : nat) : keeps env A (nested_move env fuel).
Proof.
  destruct fuel as [| f]; [by intros X r w Hl _ | apply move_keeps].
Qed.

End Survival.

Lemma breed_in_heap (w : World) (a : AgentId) :
  breed (get w a) = "Hunter"%string -> (a < length (agents w))%nat.
Proof.
  unfold get. intros H. apply lookup_lt_is_Some.
  destruct (agents w !! a); [eauto | discriminate].
Qed.

(** C2.  The loss penalty [_loss_competition(loser)]:
    - a Farmer or RiceFarmer loser dies, and the call returns;
    - a complex Hunter loser dies, and the call returns;
    - a Hunter loser that is not complex has [size * loss_rate] assigned to
      its size (through the size setter, which keeps the value within
      [min_size, max_size]); then, if it is placed, it calls [move()] once,
      otherwise nothing more happens;
    - hence, whatever the move sets off and however the call ends, a
      Farmer or RiceFarmer loser is dead afterwards, and a live Hunter loser
      is dead afterwards exactly when it was complex before. *)
Theorem loss_penalty (env : Env) (fuel : nat) (self loser : AgentId) (w : World) :
  (breed (get w loser) = "Farmer"%string \/ breed (get w loser) = "RiceFarmer"%string ->
   _loss_competition env fuel self loser w = (die loser w, Ok tt)
   /\ alive (get (fst (_loss_competition env fuel self loser w)) loser) = false)
  /\ (breed (get w loser) = "Hunter"%string ->
      is_complex env w loser = true ->
      _loss_competition env fuel self loser w = (die loser w, Ok tt))
  /\ (breed (get w loser) = "Hunter"%string ->
      is_complex env w loser = false ->
      let v := size (get w loser) * params.loss_rate (cfg env) in
      let w1 := set_size env loser v w in
      size (get w1 loser) = clampedSize env w loser v
      /\ (Qltb v (params.min_size (cfg env)) = false ->
          Qgtb v (max_size env w loser) = false ->
          size (get w1 loser) = v)
      /\ _loss_competition env (S fuel) self loser w =
           (if on_earth w1 loser then (move env fuel loser 1 ;; ret tt) w1
            else (w1, Ok tt))
      /\ _loss_competition env 0 self loser w =
           (w1, if on_earth w1 loser then Raise RecursionError else Ok tt))
  /\ (breed (get w loser) = "Hunter"%string ->
      alive (get w loser) = true ->
      alive (get (fst (_loss_competition env fuel self loser w)) loser) = false
      <-> is_complex env w loser = true).
Proof.
  assert (Hfarm : breed (get w loser) = "Farmer"%string
                  \/ breed (get w loser) = "RiceFarmer"%string ->
                  _loss_competition env fuel self loser w = (die loser w, Ok tt)).
  { intros Hb. unfold _loss_competition, _loss_competition_with.
    by rewrite bool_decide_eq_true_2 by (by apply farmer_kind_iff). }
  assert (Hcx : breed (get w loser) = "Hunter"%string ->
                is_complex env w loser = true ->
                _loss_competition env fuel self loser w = (die loser w, Ok tt)).
  { intros Hb Hc. unfold _loss_competition, _loss_competition_with.
    rewrite bool_decide_eq_false_2 by (by apply hunter_not_farmer_kind).
    by rewrite Hb, Hc. }
  split; [| split; [exact Hcx | split]].
  - intros Hb. split; [by apply Hfarm |].
    rewrite (Hfarm Hb). apply alive_die.
  - intros Hb Hc v w1.
    assert (Hsz : size (get w1 loser) = clampedSize env w loser v).
    { unfold w1, set_size. by rewrite get_upd_eq by (by apply breed_in_heap). }
    split; [exact Hsz |]. split.
    { intros Hlo Hhi. rewrite Hsz. unfold clampedSize. by rewrite Hlo, Hhi. }
    split.
    + unfold _loss_competition, _loss_competition_with.
      rewrite bool_decide_eq_false_2 by (by apply hunter_not_farmer_kind).
      by rewrite Hb, Hc.
    + unfold _loss_competition, _loss_competition_with.
      rewrite bool_decide_eq_false_2 by (by apply hunter_not_farmer_kind).
      rewrite Hb, Hc. simpl. fold v. fold w1.
      by destruct (on_earth w1 loser).
  - intros Hb Ha. split.
    + intros Hdead. destruct (is_complex env w loser) eqn:Hc; [done |].
      pose proof (_loss_competition_keeps env loser (nested_move env fuel)
                    (nested_move_keeps env loser fuel) self loser w
                    (conj Ha Hb) Hc) as [Hl _].
      unfold _loss_competition in Hdead. congruence.
    + intros Hc. rewrite (Hcx Hb Hc). apply alive_die.
Qed.

Lemma loss_penalty_witness :
  alive (get (fst (_loss_competition (Scenario.env_of Scenario.onward (fun _ => 0))
                                     2 1%nat 0%nat Scenario.two_hunters)) 0%nat)
    = false
  <-> is_complex (Scenario.env_of Scenario.onward (fun _ => 0))
                 Scenario.two_hunters 0%nat = true.
Proof.
  apply (loss_penalty (Scenario.env_of Scenario.onward (fun _ => 0))
                      2 1%nat 0%nat Scenario.two_hunters); reflexivity.
Defined.

(** ** Placement on an occupied cell (C5) *)

Lemma cell_agents_upd (a : AgentId) (f : Agent -> Agent) (w : World) (c : Cell) :
  cell_agents (upd a f w) c = cell_agents w c.
Proof. done. Qed.

Lemma cell_agents_set_occ_eq (c : Cell) (l : list AgentId) (w : World) :
  cell_agents (set_occ c l w) c = l.
Proof. unfold cell_agents, set_occ; simpl. by rewrite lookup_insert_eq. Qed.

Lemma cell_agents_set_occ_ne (c c' : Cell) (l : list AgentId) (w : World) :
  c <> c' -> cell_agents (set_occ c l w) c' = cell_agents w c'.
Proof.
  intros Hne. unfold cell_agents, set_occ; simpl. by rewrite lookup_insert_ne.
Qed.

Lemma cell_agents_leave_cell (a : AgentId) (w : World) (c : Cell) :
  a ∉ cell_agents w c -> cell_agents (leave_cell a w) c = cell_agents w c.
Proof.
  intros Hnin. unfold leave_cell.
  destruct (_cell (get w a)) as [c0 |]; [| done].
  destruct (decide (c0 = c)) as [-> | Hne].
  - rewrite cell_agents_set_occ_eq.
    induction (cell_agents w c) as [| x l IH]; [done |].
    rewrite filter_cons_True by set_solver. f_equal. apply IH. set_solver.
  - by apply cell_agents_set_occ_ne.
Qed.

Lemma cell_agents_base_put_on (a : AgentId) (c : Cell) (w : World) :
  a ∉ cell_agents w c ->
  cell_agents (base_put_on a (Some c) w) c = cell_agents w c ++ [a].
Proof.
  intros Hnin. unfold base_put_on.
  by rewrite cell_agents_upd, cell_agents_set_occ_eq, cell_agents_leave_cell.
Qed.

Lemma cell_agents_die (a : AgentId) (c : Cell) (w : World) :
  _cell (get w a) = Some c ->
  cell_agents (die a w) c = filter (fun x => x <> a) (cell_agents w c).
Proof.
  intros Hc. unfold die, leave_cell.
  by rewrite cell_agents_upd, Hc, cell_agents_set_occ_eq.
Qed.

Lemma cell_agents_set_size (env : Env) (a : AgentId) (v : Q) (w : World) (c : Cell) :
  cell_agents (set_size env a v w) c = cell_agents w c.
Proof. done. Qed.

(** A competition against a group of a known tag is the loss penalty of one
    of the two sides followed by the verdict. *)
Lemma compete_as_loss (env : Env) (self other : AgentId) (w : World) :
  breed (get w other) ∈ ["Hunter"; "Farmer"; "RiceFarmer"]%string ->
  exists b : bool,
    forall fuel : nat,
      compete env fuel self other w =
        (_loss_competition env fuel self (if b then other else self) ;; ret b) w.
Proof.
  intros Hb. unfold compete, compete_with.
  case_bool_decide as Hf.
  - unfold _compete_with_farmer_with.
    destruct (Qgeb _ _); [by exists true | by exists false].
  - assert (Hh : breed (get w other) = "Hunter"%string).
    { rewrite farmer_kind_iff in Hf. set_unfold in Hb. tauto. }
    rewrite Hh; simpl. unfold _compete_with_hunter_with.
    destruct (Qgeb _ _); [by exists true | by exists false].
Qed.

Lemma move_unfold (env : Env) (fuel : nat) (self : AgentId) (radius : nat)
    (w : World) :
  move env fuel self radius w =
    if negb (is_complex env w self) && on_earth w self then
      match _cell (get w self) ≫= (fun c => search_a_new_place env w self c radius) with
      | Some cell => (put_on env fuel self (Some cell) ;; ret true) w
      | None => (w, Ok false)
      end
    else (w, Ok false).
Proof. destruct fuel; reflexivity. Qed.

Lemma not_single_occupancy :
  ~ single_occupancy_after_put_on (Scenario.env_of Scenario.nowhere (fun _ => 0)).
Proof.
  intros H.
  specialize (H 1%nat 0%nat 0%nat Scenario.two_hunters
                (fst (put_on (Scenario.env_of Scenario.nowhere (fun _ => 0))
                             1 0%nat (Some 0%nat) Scenario.two_hunters))).
  assert (Hle : (2 <= 1)%nat); [| lia].
  apply H; vm_compute; [lia | reflexivity].
Qed.

(** C5 (amended).  [put_on(cell)] onto a cell with occupants places the
    Hunter and then, within the same call, runs [compete(self, first
    occupant)]; onto a vacant cell it only places it.  With a single
    incumbent of a known tag, the arriving Hunter joins it on the cell and
    one of the two pays the loss penalty.  If that loser is a Farmer, a
    RiceFarmer or a complex Hunter it dies, [put_on] returns, and the cell
    holds exactly one occupant, the winner.  If the loser is a Hunter that is
    not complex, its size is reduced and it calls [move()]; when that search
    finds no cell, [put_on] returns with both groups on the cell. *)
Theorem put_on_occupied (env : Env) (self : AgentId) (c : Cell) (w : World) :
  (forall (fuel : nat) (inc : AgentId) (rest : list AgentId),
     cell_agents w c = inc :: rest ->
     put_on env fuel self (Some c) w =
       (compete env fuel self inc ;; ret tt) (base_put_on self (Some c) w))
  /\ (forall fuel : nat,
        cell_agents w c = [] ->
        put_on env fuel self (Some c) w = (base_put_on self (Some c) w, Ok tt))
  /\ (forall inc : AgentId,
        breed (get w self) = "Hunter"%string ->
        cell_agents w c = [inc] ->
        self <> inc ->
        _cell (get w inc) = Some c ->
        breed (get w inc) ∈ ["Hunter"; "Farmer"; "RiceFarmer"]%string ->
        let w1 := base_put_on self (Some c) w in
        cell_agents w1 c = [inc; self]
        /\ exists b : bool,
             let L := if b then inc else self in
             let Wn := if b then self else inc in
             (forall fuel : nat,
                put_on env fuel self (Some c) w =
                  (_loss_competition env fuel self L ;; ret tt) w1)
             /\ (breed (get w1 L) = "Farmer"%string
                 \/ breed (get w1 L) = "RiceFarmer"%string
                 \/ is_complex env w1 L = true ->
                 (forall fuel : nat,
                    put_on env fuel self (Some c) w = (die L w1, Ok tt))
                 /\ cell_agents (die L w1) c = [Wn]
                 /\ alive (get (die L w1) L) = false)
             /\ (breed (get w1 L) = "Hunter"%string ->
                 is_complex env w1 L = false ->
                 let w2 :=
                   set_size env L
                     (size (get w1 L) * params.loss_rate (cfg env)) w1 in
                 search_a_new_place env w2 L c 1 = None ->
                 (forall fuel : nat,
                    put_on env (S fuel) self (Some c) w = (w2, Ok tt))
                 /\ cell_agents w2 c = [inc; self])).
Proof.
  assert (Htrig : forall (fuel : nat) (inc : AgentId) (rest : list AgentId),
     cell_agents w c = inc :: rest ->
     put_on env fuel self (Some c) w =
       (compete env fuel self inc ;; ret tt) (base_put_on self (Some c) w)).
  { intros fuel inc rest Hocc. unfold put_on, put_on_with, has_agent.
    by rewrite Hocc. }
  split; [exact Htrig | split].
  { intros fuel Hocc. unfold put_on, put_on_with, has_agent. by rewrite Hocc. }
  intros inc Hself Hocc Hne Hinc Hkind w1.
  assert (Hin : (self < length (agents w))%nat) by by apply breed_in_heap.
  assert (Hocc1 : cell_agents w1 c = [inc; self]).
  { unfold w1. rewrite cell_agents_base_put_on; rewrite Hocc; [done |].
    by intros ->%list_elem_of_singleton. }
  assert (Hg_inc : get w1 inc = get w inc) by by apply get_base_put_on_ne.
  assert (Hg_self : get w1 self = with_cell (Some c) (get w self))
    by by apply get_base_put_on_eq.
  split; [exact Hocc1 |].
  destruct (compete_as_loss env self inc w1) as [b Hb]; [by rewrite Hg_inc |].
  exists b. intros L Wn.
  assert (HcL : _cell (get w1 L) = Some c).
  { unfold L. destruct b; [by rewrite Hg_inc | by rewrite Hg_self]. }
  assert (HbL : breed (get w1 L) ∈ ["Hunter"; "Farmer"; "RiceFarmer"]%string).
  { unfold L. destruct b; [by rewrite Hg_inc |].
    rewrite Hg_self; simpl. rewrite Hself. apply list_elem_of_here. }
  assert (Hput : forall fuel : nat,
            put_on env fuel self (Some c) w =
              (_loss_competition env fuel self L ;; ret tt) w1).
  { intros fuel. rewrite (Htrig fuel inc [] Hocc). fold w1.
    unfold bind at 1. rewrite Hb. unfold bind, ret, L.
    by destruct (_loss_competition env fuel self _ w1) as [w' [[] | e]]. }
  split; [exact Hput | split].
  - intros Hdie.
    assert (Hloss : forall fuel,
              _loss_competition env fuel self L w1 = (die L w1, Ok tt)).
    { intros fuel. unfold _loss_competition, _loss_competition_with.
      case_bool_decide as Hf; [done |].
      rewrite farmer_kind_iff in Hf.
      destruct Hdie as [? | [? | Hcx]]; [tauto | tauto |].
      assert (Hh : breed (get w1 L) = "Hunter"%string)
        by (set_unfold in HbL; tauto).
      by rewrite Hh, Hcx. }
    split; [| split].
    + intros fuel. rewrite Hput. unfold bind. by rewrite Hloss.
    + rewrite (cell_agents_die _ _ _ HcL), Hocc1. unfold L, Wn.
      destruct b.
      * rewrite filter_cons_False by (intros ?; done).
        by rewrite filter_cons_True by done.
      * rewrite filter_cons_True by done.
        by rewrite filter_cons_False by (intros ?; done).
    + apply alive_die.
  - intros Hh Hcx w2 Hs.
    split; [| by unfold w2; rewrite cell_agents_set_size].
    intros fuel. rewrite Hput. unfold bind at 1.
    unfold _loss_competition, _loss_competition_with.
    rewrite bool_decide_eq_false_2 by (by apply hunter_not_farmer_kind).
    rewrite Hh, Hcx. simpl. fold w2.
    assert (Hc2 : _cell (get w2 L) = Some c).
    { unfold w2. by rewrite (get_set_size_field _cell). }
    unfold on_earth at 1. rewrite Hc2.
    unfold bind at 1. rewrite move_unfold.
    unfold on_earth. rewrite Hc2. simpl. rewrite Hs.
    by destruct (negb _ && true).
Qed.

(** ** The phases of a tick (C4) *)

Section JournalFacts.

Context {W : Type}.
Variable on_earth_of : W -> AgentId -> bool.
Variable call : string -> AgentId -> M W unit.
Variable actors_of farmers_of hunters_of : W -> list AgentId.
Variable size_of : W -> AgentId -> Q.
Variable add_farmers : M W (list AgentId).

Lemma journal_trigger_appends (actors : list AgentId) (func : string)
    (s : W * list Event) :
  exists l,
    snd (fst (journal_trigger on_earth_of call actors func s)) = snd s ++ l
    /\ block func l.
Proof.
  revert s. induction actors as [| a rest IH]; intros s.
  - exists []. split; [by rewrite app_nil_r | constructor].
  - unfold journal_trigger. simpl. fold (journal_trigger on_earth_of call).
    destruct (on_earth_of (fst s) a) eqn:Hp; simpl; [| apply IH].
    unfold bind, journal_call.
    destruct (call func a (fst s)) as [w' [[] | e]].
    + destruct (IH (w', snd s ++ [mkEvent func a (on_earth_of (fst s) a)]))
        as (l & Hl & Hb).
      exists (mkEvent func a true :: l). rewrite Hl. simpl. rewrite Hp.
      split; [by rewrite <- app_assoc | by constructor].
    + exists [mkEvent func a true]. simpl. rewrite Hp.
      split; [done | by repeat constructor].
Qed.

Lemma journal_trigger_erases (actors : list AgentId) (func : string)
    (s : W * list Event) :
  (fst (fst (journal_trigger on_earth_of call actors func s)),
   snd (journal_trigger on_earth_of call actors func s))
  = trigger on_earth_of call actors func (fst s).
Proof.
  revert s. induction actors as [| a rest IH]; intros s; [done |].
  unfold journal_trigger. simpl. fold (journal_trigger on_earth_of call).
  destruct (on_earth_of (fst s) a); simpl; [| apply IH].
  unfold bind, journal_call.
  destruct (call func a (fst s)) as [w' [[] | e]]; [| done].
  apply (IH (w', _)).
Qed.

Lemma appends_phase (roster : W -> list AgentId) (func : string) :
  appends (block func)
    (in_nature (fun s => journal_trigger on_earth_of call (roster (fst s)) func s)).
Proof.
  intros s. unfold in_nature, journal.
  pose proof (journal_trigger_appends (roster (fst (nature s))) func (nature s))
    as (l & Hl & Hb).
  destruct (journal_trigger _ _ _ _ _) as [w' r]. by exists l.
Qed.

Lemma erases_phase (roster : W -> list AgentId) (func : string) :
  erases_to
    (in_nature (fun s => journal_trigger on_earth_of call (roster (fst s)) func s))
    (in_nature (fun w => trigger on_earth_of call (roster w) func w)).
Proof.
  intros s. unfold in_nature, erase.
  pose proof (journal_trigger_erases (roster (fst (nature s))) func (nature s))
    as He.
  destruct (journal_trigger _ _ _ _ _) as [w' r]. simpl in *.
  by rewrite <- He.
Qed.

Lemma appends_bind {A B : Type} (P Q : list Event -> Prop)
    (m : M (Model (W * list Event)) A) (k : A -> M (Model (W * list Event)) B) :
  appends P m -> (forall a, appends Q (k a)) -> Q [] ->
  appends (fun l => exists l1 l2, l = l1 ++ l2 /\ P l1 /\ Q l2) (bind m k).
Proof.
  intros Hm Hk Hnil s. unfold bind.
  destruct (Hm s) as (l1 & Hl1 & HP).
  destruct (m s) as [s1 [a | e]]; simpl in *.
  - destruct (Hk a s1) as (l2 & Hl2 & HQ).
    exists (l1 ++ l2). rewrite Hl2, Hl1, app_assoc. eauto 6.
  - exists l1. split; [done |]. exists l1, []. by rewrite app_nil_r.
Qed.

Lemma erases_bind {A B : Type}
    (m' : M (Model (W * list Event)) A) (m : M (Model W) A)
    (k' : A -> M (Model (W * list Event)) B) (k : A -> M (Model W) B) :
  erases_to m' m -> (forall a, erases_to (k' a) (k a)) ->
  erases_to (bind m' k') (bind m k).
Proof.
  intros Hm Hk s. unfold bind. specialize (Hm s).
  destruct (m' s) as [s1 [a | e]]; simpl in Hm; rewrite <- Hm; [apply Hk | done].
Qed.

End JournalFacts.

Section RunFacts.

Context {W : Type}.
Variable on_earth_of : W -> AgentId -> bool.
Variable call : string -> AgentId -> M W unit.

(** [trigger] makes the run of a phase, and the journal of its calls is the
    calls of that run. *)
Lemma trigger_runs (roster : list AgentId) (func : string) (w : W)
    (j : list Event) :
  exists T : list Event,
    phase_run on_earth_of call func roster w T
      (fst (trigger on_earth_of call roster func w))
      (snd (trigger on_earth_of call roster func w))
    /\ journal_trigger on_earth_of call roster func (w, j)
       = ((fst (trigger on_earth_of call roster func w), j ++ calls_of T),
          snd (trigger on_earth_of call roster func w)).
Proof.
  revert w j. induction roster as [| a rest IH]; intros w j.
  - exists []. split; [constructor |].
    unfold journal_trigger, calls_of. simpl. unfold ret. by rewrite app_nil_r.
  - unfold journal_trigger. cbn [trigger]. fold (journal_trigger on_earth_of call).
    cbn [fst]. destruct (on_earth_of w a) eqn:Hp; cbn [negb].
    + unfold bind, journal_call. cbn [fst snd]. rewrite Hp.
      destruct (call func a w) as [w1 [[] | e]] eqn:Hc.
      * destruct (IH w1 (j ++ [mkEvent func a true])) as (T & Hrun & Hj).
        exists (mkEvent func a true :: T). split.
        -- by eapply phase_call.
        -- rewrite Hj. unfold calls_of. rewrite filter_cons_True by done.
           by rewrite <- app_assoc.
      * exists [mkEvent func a true]. split.
        -- by eapply phase_raise.
        -- unfold calls_of. by rewrite filter_cons_True by done.
    + destruct (IH w j) as (T & Hrun & Hj).
      exists (mkEvent func a false :: T). split.
      * by apply phase_skip.
      * rewrite Hj. unfold calls_of. by rewrite filter_cons_False by done.
Qed.

(** The run of a phase reaches every actor of its roster once, in the order
    of the roster, when it returns, and a first part of the roster when it
    raises; all its events are of the method of the phase. *)
Lemma phase_run_roster (func : string) (roster : list AgentId) (w w' : W)
    (T : list Event) (o : Outcome unit) :
  phase_run on_earth_of call func roster w T w' o ->
  Forall (fun e => ev_func e = func) T
  /\ map ev_actor T `prefix_of` roster
  /\ (o = Ok tt -> map ev_actor T = roster).
Proof.
  induction 1 as [w | a rest w w' l o Hp _ (Hf & Hpre & Hall)
                  | a rest w w1 w' l o Hp Hc _ (Hf & Hpre & Hall)
                  | a rest w w1 e Hp Hc].
  - by repeat split.
  - split; [by constructor |]. split; [by apply prefix_cons |].
    intros Ho. simpl. by rewrite Hall.
  - split; [by constructor |]. split; [by apply prefix_cons |].
    intros Ho. simpl. by rewrite Hall.
  - split; [by repeat constructor |].
    split; [apply prefix_cons, prefix_nil | done].
Qed.

End RunFacts.

Section StepRuns.

Context {W : Type}.
Variable on_earth_of : W -> AgentId -> bool.
Variable call : string -> AgentId -> M W unit.
Variable actors_of farmers_of hunters_of : W -> list AgentId.
Variable size_of : W -> AgentId -> Q.

(** What is left of a tick after some of its phases, [k], and the same over
    the journal, [k'], make the run of the phases [plan] and end as a tick
    does: with the numbers recorded if no phase raised. *)
Lemma runs_record (farmers : list AgentId) (s1 : Model W) (j : list Event) :
  exists (T : list Event) (w : W) (o : Outcome unit),
    phases_run on_earth_of call [] (nature s1) T w o
    /\ record_numbers farmers_of hunters_of size_of farmers s1
       = (match o with
          | Ok _ => fst (record_numbers farmers_of hunters_of size_of farmers
                                        (with_nature s1 w))
          | Raise _ => with_nature s1 w
          end, o)
    /\ journal (fst (record_numbers (fun s => farmers_of (fst s))
                                    (fun s => hunters_of (fst s))
                                    (fun s => size_of (fst s)) farmers
                                    (with_nature s1 (nature s1, j))))
       = j ++ calls_of T.
Proof.
  exists [], (nature s1), (Ok tt). split; [constructor |].
  split; [reflexivity |]. unfold journal, calls_of. simpl. by rewrite app_nil_r.
Qed.

Lemma runs_phase_then (farmers : list AgentId) (func : string)
    (roster : W -> list AgentId)
    (plan : list (string * (W -> list AgentId)))
    (k : M (Model W) unit) (k' : M (Model (W * list Event)) unit) :
  (forall (s1 : Model W) (j : list Event),
     exists (T : list Event) (w : W) (o : Outcome unit),
       phases_run on_earth_of call plan (nature s1) T w o
       /\ k s1
          = (match o with
             | Ok _ => fst (record_numbers farmers_of hunters_of size_of
                                           farmers (with_nature s1 w))
             | Raise _ => with_nature s1 w
             end, o)
       /\ journal (fst (k' (with_nature s1 (nature s1, j)))) = j ++ calls_of T) ->
  forall (s1 : Model W) (j : list Event),
    exists (T : list Event) (w : W) (o : Outcome unit),
      phases_run on_earth_of call ((func, roster) :: plan) (nature s1) T w o
      /\ (in_nature (fun w => trigger on_earth_of call (roster w) func w) ;; k) s1
         = (match o with
            | Ok _ => fst (record_numbers farmers_of hunters_of size_of
                                          farmers (with_nature s1 w))
            | Raise _ => with_nature s1 w
            end, o)
      /\ journal (fst ((in_nature
                          (fun sj => journal_trigger on_earth_of call
                                       (roster (fst sj)) func sj) ;; k')
                         (with_nature s1 (nature s1, j))))
         = j ++ calls_of T.
Proof.
  intros Hk s1 j.
  destruct (trigger_runs on_earth_of call (roster (nature s1)) func (nature s1) j)
    as (T1 & Hrun & Hj).
  unfold bind, in_nature. cbn [nature with_nature fst]. rewrite Hj.
  destruct (trigger on_earth_of call (roster (nature s1)) func (nature s1))
    as [w1 [[] | e]]; cbn [fst snd] in *.
  - destruct (Hk (with_nature s1 w1) (j ++ calls_of T1)) as (T & w & o & Hp & Hs & Hjj).
    exists (T1 ++ T), w, o. split; [by eapply phases_next |].
    split; [exact Hs |].
    unfold calls_of in *. rewrite filter_app, app_assoc. exact Hjj.
  - exists T1, w1, (Raise e). split; [by apply phases_raise |].
    by split.
Qed.

Lemma step_runs (add_farmers : M W (list AgentId)) (s : Model W) :
  match add_farmers (nature s) with
  | (w0, Raise e) =>
      step on_earth_of call actors_of farmers_of hunters_of size_of
           add_farmers s = (with_nature s w0, Raise e)
  | (w0, Ok farmers) =>
      exists (T : list Event) (w4 : W) (o : Outcome unit),
        phases_run on_earth_of call (tick_plan actors_of hunters_of) w0 T w4 o
        /\ step on_earth_of call actors_of farmers_of hunters_of size_of
                add_farmers s
           = (match o with
              | Ok _ => fst (record_numbers farmers_of hunters_of size_of
                                            farmers (with_nature s w4))
              | Raise _ => with_nature s w4
              end, o)
        /\ journal (fst (journal_step on_earth_of call actors_of farmers_of
                                      hunters_of size_of add_farmers
                                      (with_nature s (nature s, []))))
           = calls_of T
  end.
Proof.
  destruct (add_farmers (nature s)) as [w0 [farmers | e]] eqn:Ha.
  - pose proof (runs_phase_then farmers "population_growth" actors_of _ _ _
        (runs_phase_then farmers "convert" actors_of _ _ _
           (runs_phase_then farmers "diffuse" actors_of _ _ _
              (runs_phase_then farmers "move" hunters_of _ _ _
                 (runs_record farmers)))) (with_nature s w0) [])
      as (T & w4 & o & Hp & Hs & Hj).
    exists T, w4, o. split; [exact Hp |]. split.
    + unfold step. unfold bind at 1. unfold in_nature at 1. rewrite Ha.
      exact Hs.
    + unfold journal_step, step. unfold bind at 1. unfold in_nature at 1.
      unfold journal_lift. cbn [nature with_nature fst snd]. rewrite Ha.
      exact Hj.
  - unfold step, bind, in_nature. by rewrite Ha.
Qed.

End StepRuns.

(** C4.  [trigger] passes over an actor that is not placed in the world as it
    is when the iteration reaches it, and calls the method of every other
    actor before going on.  Consequently, in the journal of a tick (which
    records each dispatched call and leaves the run otherwise as it is), the
    calls form four consecutive blocks: all the [population_growth] calls,
    then all the [convert] calls, then all the [diffuse] calls, then all the
    [move] calls; and every call was made on an actor placed at that
    moment.

    More precisely, a tick is the run of its four phases, in this order:
    growth over the roster of all actors, conversion over the roster of all
    actors, diffusion over the roster of all actors, movement over the roster
    of the hunters, each roster read in the world the phase before has left.
    A phase that returns has reached every actor of its roster once, in
    order, calling the method of exactly those placed at the moment they were
    reached, those that died or left the grid earlier in the phase included
    among the others; a phase that raises ends the tick with its exception.
    The world and the result of [step] are those of this run (with the
    numbers recorded when it returns), and the journal of the tick is the
    list of the calls of the run. *)
Theorem step_phase_order {W : Type}
    (on_earth_of : W -> AgentId -> bool)
    (call : string -> AgentId -> M W unit)
    (actors_of farmers_of hunters_of : W -> list AgentId)
    (size_of : W -> AgentId -> Q)
    (add_farmers : M W (list AgentId)) :
  (forall (w : W) (a : AgentId) (rest : list AgentId) (func : string),
     on_earth_of w a = false ->
     trigger on_earth_of call (a :: rest) func w =
     trigger on_earth_of call rest func w)
  /\ (forall (w : W) (a : AgentId) (rest : list AgentId) (func : string),
        on_earth_of w a = true ->
        trigger on_earth_of call (a :: rest) func w =
        (call func a ;; trigger on_earth_of call rest func) w)
  /\ (forall s : Model (W * list Event),
        (erase (fst (journal_step on_earth_of call actors_of farmers_of
                                  hunters_of size_of add_farmers s)),
         snd (journal_step on_earth_of call actors_of farmers_of
                           hunters_of size_of add_farmers s))
        = step on_earth_of call actors_of farmers_of hunters_of size_of
               add_farmers (erase s))
  /\ (forall s : Model (W * list Event),
        exists l1 l2 l3 l4 : list Event,
          journal (fst (journal_step on_earth_of call actors_of farmers_of
                                     hunters_of size_of add_farmers s))
          = journal s ++ l1 ++ l2 ++ l3 ++ l4
          /\ block "population_growth" l1
          /\ block "convert" l2
          /\ block "diffuse" l3
          /\ block "move" l4)
  /\ (forall s : Model W,
        match add_farmers (nature s) with
        | (w0, Raise e) =>
            step on_earth_of call actors_of farmers_of hunters_of size_of
                 add_farmers s = (with_nature s w0, Raise e)
        | (w0, Ok farmers) =>
            exists (T : list Event) (w4 : W) (o : Outcome unit),
              phases_run on_earth_of call (tick_plan actors_of hunters_of)
                         w0 T w4 o
              /\ step on_earth_of call actors_of farmers_of hunters_of size_of
                      add_farmers s
                 = (match o with
                    | Ok _ => fst (record_numbers farmers_of hunters_of size_of
                                                  farmers (with_nature s w4))
                    | Raise _ => with_nature s w4
                    end, o)
              /\ journal (fst (journal_step on_earth_of call actors_of
                                            farmers_of hunters_of size_of
                                            add_farmers
                                            (with_nature s (nature s, []))))
                 = calls_of T
        end)
  /\ (forall (w0 w4 : W) (T : list Event),
        phases_run on_earth_of call (tick_plan actors_of hunters_of)
                   w0 T w4 (Ok tt) ->
        exists (w1 w2 w3 : W) (l1 l2 l3 l4 : list Event),
          T = l1 ++ l2 ++ l3 ++ l4
          /\ phase_run on_earth_of call "population_growth" (actors_of w0)
                       w0 l1 w1 (Ok tt)
          /\ phase_run on_earth_of call "convert" (actors_of w1) w1 l2 w2 (Ok tt)
          /\ phase_run on_earth_of call "diffuse" (actors_of w2) w2 l3 w3 (Ok tt)
          /\ phase_run on_earth_of call "move" (hunters_of w3) w3 l4 w4 (Ok tt)
          /\ map ev_actor l1 = actors_of w0
          /\ map ev_actor l2 = actors_of w1
          /\ map ev_actor l3 = actors_of w2
          /\ map ev_actor l4 = hunters_of w3)
  /\ (forall (func : string) (roster : list AgentId) (w w' : W)
             (T : list Event) (o : Outcome unit),
        phase_run on_earth_of call func roster w T w' o ->
        Forall (fun e => ev_func e = func) T
        /\ map ev_actor T `prefix_of` roster
        /\ (o = Ok tt -> map ev_actor T = roster)).
Proof.
  split; [| split; [| split; [| split; [| split; [| split]]]]];
    [| | | | apply step_runs | | apply phase_run_roster].
  - intros w a rest func Hp. simpl. by rewrite Hp.
  - intros w a rest func Hp. simpl. by rewrite Hp.
  - unfold journal_step, step.
    apply erases_bind; [by intros s; unfold in_nature, journal_lift, erase; simpl;
                          destruct (add_farmers _) |].
    intros farmers.
    repeat (apply erases_bind; [apply erases_phase | intros _]).
    by intros s.
  - intros s.
    assert (Hnil : forall f, block f []) by (intros f; constructor).
    set (Q4 := fun r3 : list Event =>
                 exists l4 r4, r3 = l4 ++ r4 /\ block "move" l4 /\ r4 = []).
    set (Q3 := fun r2 : list Event =>
                 exists l3 r3, r2 = l3 ++ r3 /\ block "diffuse" l3 /\ Q4 r3).
    set (Q2 := fun r1 : list Event =>
                 exists l2 r2, r1 = l2 ++ r2 /\ block "convert" l2 /\ Q3 r2).
    set (Q1 := fun r0 : list Event =>
                 exists l1 r1, r0 = l1 ++ r1 /\ block "population_growth" l1
                               /\ Q2 r1).
    assert (H4 : Q4 []) by (exists [], []; eauto).
    assert (H3 : Q3 []) by (exists [], []; eauto).
    assert (H2 : Q2 []) by (exists [], []; eauto).
    assert (H1 : Q1 []) by (exists [], []; eauto).
    assert (Happ : appends
              (fun l => exists l0 r0, l = l0 ++ r0 /\ l0 = [] /\ Q1 r0)
              (journal_step on_earth_of call actors_of farmers_of hunters_of
                            size_of add_farmers)).
    { unfold journal_step, step.
      apply (appends_bind (fun l => l = []) Q1); [| | exact H1].
      - intros s'. exists []. unfold in_nature, journal_lift, journal; simpl.
        destruct (add_farmers _). by rewrite app_nil_r.
      - intros farmers.
        apply (appends_bind (block "population_growth") Q2);
          [apply appends_phase | | exact H2].
        intros _.
        apply (appends_bind (block "convert") Q3);
          [apply appends_phase | | exact H3].
        intros _.
        apply (appends_bind (block "diffuse") Q4);
          [apply appends_phase | | exact H4].
        intros _.
        apply (appends_bind (block "move") (fun l => l = []));
          [apply appends_phase | | done].
        intros _ s'. exists []. by rewrite app_nil_r. }
    destruct (Happ s) as (l & Hl & l0 & r0 & -> & -> & l1 & r1 & -> & B1 &
                          l2 & r2 & -> & B2 & l3 & r3 & -> & B3 &
                          l4 & r4 & -> & B4 & ->).
    + exists l1, l2, l3, l4. rewrite Hl. simpl. rewrite app_nil_r. eauto.
  - intros w0 w4 T H.
    inversion H as [| f1 r1 p1 x0 w1 x4 l1 t1 o1 H1 H1' |]; subst; clear H.
    inversion H1' as [| f2 r2 p2 x1 w2 x5 l2 t2 o2 H2 H2' |]; subst; clear H1'.
    inversion H2' as [| f3 r3 p3 x2 w3 x6 l3 t3 o3 H3 H3' |]; subst; clear H2'.
    inversion H3' as [| f4 r4 p4 x3 w4' x7 l4 t4 o4 H4 H4' |]; subst; clear H3'.
    inversion H4'; subst; clear H4'.
    exists w1, w2, w3, l1, l2, l3, l4. rewrite app_nil_r.
    repeat split; try done;
      by eapply (phase_run_roster on_earth_of call).
Qed.

(** ** The legacy competition against the current one (C10) *)

Lemma legacy_not_equivalent :
  ~ exists (set_size : AgentId -> Q -> World -> World)
           (move_to : AgentId -> M World unit),
      legacy_raises_alike (Scenario.env_of Scenario.nowhere (fun _ => 0))
                          set_size move_to.
Proof.
  intros (set_size & move_to & H).
  specialize (H 1%nat 0%nat 1%nat Scenario.hunter_by_rice_farmer).
  assert (Hk : breed (get Scenario.hunter_by_rice_farmer 1%nat)
               ∈ ["Hunter"; "Farmer"; "RiceFarmer"]%string).
  { simpl. set_unfold. tauto. }
  destruct (proj1 (H Hk)) as [e He].
  - exists TypeError. reflexivity.
  - vm_compute in He. discriminate.
Qed.

(** C10 (amended).  For [other] tagged Hunter or Farmer the legacy and the
    current [compete] reach the same verdict and charge the same side with
    the loss penalty, and both penalties kill a Farmer loser.  For a tag
    outside Hunter, Farmer and RiceFarmer both raise TypeError and change
    nothing.  They part ways in two places: the legacy raises TypeError for a
    RiceFarmer, and the legacy penalty never kills a Hunter loser, complex or
    not: all it does is assign [size * loss_rate] to its size and call
    [move_to], so that, the size setter and [move_to] killing nobody, the
    loser is as alive after the legacy penalty as before, whereas a live
    complex Hunter loser is dead after the current one. *)
Theorem legacy_compete_agreement (env : Env)
    (set_size : AgentId -> Q -> World -> World)
    (move_to : AgentId -> M World unit)
    (fuel : nat) (self other : AgentId) (w : World) :
  (breed (get w other) = "Hunter"%string \/ breed (get w other) = "Farmer"%string ->
   exists b : bool,
     Legacy.compete env set_size move_to self other w =
       (Legacy._loss_competition env set_size move_to self
          (if b then other else self) ;; ret b) w
     /\ compete env fuel self other w =
          (_loss_competition env fuel self (if b then other else self) ;; ret b) w)
  /\ (forall loser : AgentId,
        breed (get w loser) = "Farmer"%string ->
        Legacy._loss_competition env set_size move_to self loser w
          = (die loser w, Ok tt)
        /\ _loss_competition env fuel self loser w = (die loser w, Ok tt))
  /\ (breed (get w other) ∉ ["Hunter"; "Farmer"; "RiceFarmer"]%string ->
      Legacy.compete env set_size move_to self other w = (w, Raise TypeError)
      /\ compete env fuel self other w = (w, Raise TypeError))
  /\ (breed (get w other) = "RiceFarmer"%string ->
      Legacy.compete env set_size move_to self other w = (w, Raise TypeError))
  /\ (forall loser : AgentId,
        breed (get w loser) = "Hunter"%string ->
        Legacy._loss_competition env set_size move_to self loser w
          = move_to loser
              (set_size loser
                 (size (get w loser) * params.loss_rate (cfg env)) w))
  /\ (forall loser : AgentId,
        breed (get w loser) = "Hunter"%string ->
        (forall (a : AgentId) (v : Q) (w0 : World),
           alive (get (set_size a v w0) loser) = alive (get w0 loser)) ->
        (forall (a : AgentId) (w0 : World),
           alive (get (fst (move_to a w0)) loser) = alive (get w0 loser)) ->
        alive (get (fst (Legacy._loss_competition env set_size move_to
                           self loser w)) loser)
          = alive (get w loser)
        /\ (alive (get w loser) = true ->
            is_complex env w loser = true ->
            alive (get (fst (Legacy._loss_competition env set_size move_to
                               self loser w)) loser) = true
            /\ alive (get (fst (_loss_competition env fuel self loser w))
                          loser) = false)).
Proof.
  split; [| split; [| split; [| split; [| split]]]].
  - intros [Hb | Hb].
    + exists (Qgeb (size (get w self)) (size (get w other))).
      unfold Legacy.compete, compete, compete_with, _compete_with_hunter_with.
      rewrite (bool_decide_eq_false_2
                 (breed (get w other) ∈ ["Farmer"; "RiceFarmer"]%string))
        by (by apply hunter_not_farmer_kind).
      rewrite (bool_decide_eq_true_2
                 (breed (get w other) ∈ ["Farmer"; "Hunter"]%string))
        by (rewrite Hb; set_unfold; tauto).
      rewrite Hb. simpl.
      by destruct (Qgeb _ _).
    + exists (Qgeb (size (get w self) * params.intensified_coefficient (cfg env))
                   (size (get w other))).
      unfold Legacy.compete, compete, compete_with, _compete_with_farmer_with.
      rewrite (bool_decide_eq_true_2
                 (breed (get w other) ∈ ["Farmer"; "RiceFarmer"]%string))
        by (rewrite Hb; set_unfold; tauto).
      rewrite (bool_decide_eq_true_2
                 (breed (get w other) ∈ ["Farmer"; "Hunter"]%string))
        by (rewrite Hb; set_unfold; tauto).
      rewrite Hb. simpl. rewrite orb_false_r.
      by destruct (Qgeb _ _).
  - intros loser Hb. split.
    + unfold Legacy._loss_competition. by rewrite Hb.
    + unfold _loss_competition, _loss_competition_with.
      by rewrite bool_decide_eq_true_2 by (rewrite Hb; set_unfold; tauto).
  - intros Hb.
    assert (Hf : String.eqb (breed (get w other)) "Farmer" = false).
    { apply String.eqb_neq. intros Heq. apply Hb. set_unfold. tauto. }
    assert (Hh : String.eqb (breed (get w other)) "Hunter" = false).
    { apply String.eqb_neq. intros Heq. apply Hb. set_unfold. tauto. }
    split.
    + unfold Legacy.compete. rewrite Hf, Hh. simpl.
      by rewrite bool_decide_eq_false_2 by (set_unfold; set_unfold in Hb; tauto).
    + unfold compete, compete_with. rewrite Hh.
      by rewrite bool_decide_eq_false_2 by (set_unfold; set_unfold in Hb; tauto).
  - intros Hb. unfold Legacy.compete. rewrite Hb. simpl. reflexivity.
  - intros loser Hb. unfold Legacy._loss_competition. by rewrite Hb.
  - intros loser Hb Hset Hmove.
    assert (Hleg : alive (get (fst (Legacy._loss_competition env set_size
                                      move_to self loser w)) loser)
                   = alive (get w loser)).
    { unfold Legacy._loss_competition. rewrite Hb. simpl.
      by rewrite Hmove, Hset. }
    split; [exact Hleg |]. intros Ha Hc. split; [by rewrite Hleg |].
    unfold _loss_competition, _loss_competition_with.
    rewrite bool_decide_eq_false_2 by (by apply hunter_not_farmer_kind).
    rewrite Hb, Hc. simpl. apply alive_die.
Qed.

Lemma legacy_compete_agreement_witness :
  (Legacy._loss_competition (Scenario.env_of Scenario.nowhere (fun _ => 0))
       (set_size (Scenario.env_of Scenario.nowhere (fun _ => 0)))
       (fun _ => ret tt) 0%nat 1%nat Scenario.hunter_by_farmer
     = (die 1%nat Scenario.hunter_by_farmer, Ok tt)
   /\ _loss_competition (Scenario.env_of Scenario.nowhere (fun _ => 0))
        1 0%nat 1%nat Scenario.hunter_by_farmer
      = (die 1%nat Scenario.hunter_by_farmer, Ok tt))
  /\ (alive (get (fst (Legacy._loss_competition
                         (Scenario.env_of Scenario.nowhere (fun _ => 0))
                         (set_size (Scenario.env_of Scenario.nowhere (fun _ => 0)))
                         (fun _ => ret tt) 0%nat 0%nat
                         Scenario.settled_hunter)) 0%nat) = true
      /\ alive (get (fst (_loss_competition
                            (Scenario.env_of Scenario.nowhere (fun _ => 0))
                            1 0%nat 0%nat Scenario.settled_hunter)) 0%nat)
         = false).
Proof.
  split.
  - apply (legacy_compete_agreement
             (Scenario.env_of Scenario.nowhere (fun _ => 0))
             (set_size (Scenario.env_of Scenario.nowhere (fun _ => 0)))
             (fun _ => ret tt) 1 0%nat 1%nat Scenario.hunter_by_farmer).
    reflexivity.
  - destruct (legacy_compete_agreement
                (Scenario.env_of Scenario.nowhere (fun _ => 0))
                (set_size (Scenario.env_of Scenario.nowhere (fun _ => 0)))
                (fun _ => ret tt) 1 0%nat 0%nat Scenario.settled_hunter)
      as (_ & _ & _ & _ & _ & H).
    destruct (H 0%nat) as [_ H'].
    + reflexivity.
    + intros a v w0. apply (get_set_size_field alive). reflexivity.
    + reflexivity.
    + apply H'; reflexivity.
Defined.

(** A complex Hunter of size 500 that loses: with the size setter of the
    current base class and a [move_to] that stays put, the legacy penalty
    leaves it alive on its cell, the current one kills it. *)
Example legacy_spares_complex_loser :
  let env := Scenario.env_of Scenario.nowhere (fun _ => 0) in
  is_complex env Scenario.settled_hunter 0%nat = true
  /\ alive (get (fst (Legacy._loss_competition env (set_size env)
                        (fun _ => ret tt) 0%nat 0%nat
                        Scenario.settled_hunter)) 0%nat) = true
  /\ alive (get (fst (_loss_competition env 1 0%nat 0%nat
                        Scenario.settled_hunter)) 0%nat) = false.
Proof. vm_compute. auto. Qed.

Lemma put_on_occupied_witness :
  put_on (Scenario.env_of Scenario.nowhere (fun _ => 0)) 0 0%nat (Some 0%nat)
         Scenario.hunter_farmer
  = (compete (Scenario.env_of Scenario.nowhere (fun _ => 0)) 0 0%nat 1%nat ;; ret tt)
      (base_put_on 0%nat (Some 0%nat) Scenario.hunter_farmer).
Proof.
  apply (proj1 (put_on_occupied (Scenario.env_of Scenario.nowhere (fun _ => 0))
                                0%nat 0%nat Scenario.hunter_farmer)
               0%nat 1%nat []).
  reflexivity.
Defined.

Lemma step_phase_order_witness :
  trigger on_earth
    (hunter_call (Scenario.env_of Scenario.nowhere (fun _ => 0)) 1
                 Scenario.no_others)
    [1%nat; 0%nat] "move" Scenario.farmer_gone
  = trigger on_earth
      (hunter_call (Scenario.env_of Scenario.nowhere (fun _ => 0)) 1
                   Scenario.no_others)
      [0%nat] "move" Scenario.farmer_gone.
Proof.
  apply (proj1 (step_phase_order on_earth
                  (hunter_call (Scenario.env_of Scenario.nowhere (fun _ => 0)) 1
                               Scenario.no_others)
                  actors (select "Farmer") (select "Hunter")
                  (fun w a => size (get w a)) (ret []))).
  reflexivity.
Defined.

(** ** The scenarios of the specification, run *)

(** Forager of size 500 arriving on a Farmer of size 400, coefficient 1.2:
    the Forager wins, the Farmer dies and the cell is the Forager's. *)
Example forager_beats_farmer :
  let r := put_on (Scenario.env_of Scenario.nowhere (fun _ => 0)) 0 0%nat
                  (Some 0%nat) Scenario.hunter_farmer in
  snd r = Ok tt
  /\ alive (get (fst r) 1%nat) = false
  /\ cell_agents (fst r) 0%nat = [0%nat].
Proof. vm_compute. auto. Qed.

(** Forager of size 50 against a Forager of size 80, loss rate 0.5: the
    initiator loses, is left with 25 and moves on to the next cell. *)
Example smaller_forager_loses :
  let r := compete (Scenario.env_of Scenario.onward (fun _ => 0)) 1 0%nat 1%nat
                   Scenario.two_hunters in
  snd r = Ok false
  /\ size (get (fst r) 0%nat) == 25
  /\ _cell (get (fst r) 0%nat) = Some 2%nat
  /\ alive (get (fst r) 0%nat) = true.
Proof. vm_compute. auto. Qed.

(** Forager next to a Farmer on arable land, probability 0.5: a draw of 0.4
    converts it, and the Farmer it becomes has its size. *)
Example draw_below_converts :
  let r := convert (Scenario.env_of Scenario.nowhere (fun _ => 2 # 5)) 0%nat 1
                   false Scenario.hunter_by_farmer in
  snd r = Ok 2%nat
  /\ breed (get (fst r) 2%nat) = "Farmer"%string
  /\ size (get (fst r) 2%nat) = 50
  /\ alive (get (fst r) 0%nat) = false
  /\ draws (fst r) = 1%nat.
Proof. vm_compute. auto. Qed.

(** The same with a draw of 0.6: it stays a Forager, and the rice path has
    taken a draw of its own. *)
Example draw_above_stays :
  convert (Scenario.env_of Scenario.nowhere (fun _ => 3 # 5)) 0%nat 1
          false Scenario.hunter_by_farmer
  = (drawn (drawn Scenario.hunter_by_farmer), Ok 0%nat).
Proof. vm_compute. reflexivity. Qed.

(** A tick in which nothing can happen records the numbers and returns. *)
Example quiet_tick :
  let r := tick (Scenario.env_of Scenario.nowhere (fun _ => 3 # 5)) 1
                Scenario.no_others (ret [])
                (mkModel Scenario.settled_hunter [] [] []) in
  snd r = Ok tt
  /\ new_farmers (fst r) = [0%nat]
  /\ hunters_num (fst r) = [500 + 0]
  /\ draws (nature (fst r)) = 2%nat.
Proof. vm_compute. auto. Qed.

(** * Further properties *)

(** ** The scheduler (model.py) *)

Section TriggerFacts.

Context {W : Type}.
Variable on_earth_of : W -> AgentId -> bool.
Variable call : string -> AgentId -> M W unit.

Lemma trigger_app_eq (l1 l2 : list AgentId) (func : string) (w : W) :
  trigger on_earth_of call (l1 ++ l2) func w =
  (trigger on_earth_of call l1 func ;; trigger on_earth_of call l2 func) w.
Proof.
  revert w. induction l1 as [| a l1 IH]; intros w; [done |].
  cbn [app trigger]. unfold bind. cbn [trigger].
  destruct (negb (on_earth_of w a)).
  - rewrite IH. reflexivity.
  - unfold bind. destruct (call func a w) as [w1 [[] | e]]; [| done].
    rewrite IH. reflexivity.
Qed.

End TriggerFacts.

(** X1.  A roster can be cut anywhere: [trigger] over [l1 ++ l2] is
    [trigger] over [l1] followed, if it returned, by [trigger] over [l2] from
    the world it left.  When the method of an actor raises, the exception
    leaves [trigger] with the world of that moment and the actors behind it
    in the roster are not visited.  A roster without any placed actor
    leaves the world as it is. *)
Theorem trigger_composes {W : Type} (on_earth_of : W -> AgentId -> bool)
    (call : string -> AgentId -> M W unit) (func : string) :
  (forall (l1 l2 : list AgentId) (w : W),
     trigger on_earth_of call (l1 ++ l2) func w =
     (trigger on_earth_of call l1 func ;; trigger on_earth_of call l2 func) w)
  /\ (forall (l1 l2 : list AgentId) (a : AgentId) (w w1 w2 : W) (e : Exn),
        trigger on_earth_of call l1 func w = (w1, Ok tt) ->
        on_earth_of w1 a = true ->
        call func a w1 = (w2, Raise e) ->
        trigger on_earth_of call (l1 ++ a :: l2) func w = (w2, Raise e))
  /\ (forall (l : list AgentId) (w : W),
        Forall (fun a => on_earth_of w a = false) l ->
        trigger on_earth_of call l func w = (w, Ok tt)).
Proof.
  split; [| split].
  - intros l1 l2 w. apply trigger_app_eq.
  - intros l1 l2 a w w1 w2 e H1 Hp Hc.
    rewrite trigger_app_eq. unfold bind at 1. rewrite H1. simpl.
    rewrite Hp. simpl. unfold bind. by rewrite Hc.
  - intros l w Hl. induction Hl as [| a l Ha _ IH]; [done |].
    simpl. by rewrite Ha.
Qed.

Lemma trigger_composes_witness :
  trigger on_earth
    (hunter_call (Scenario.env_of Scenario.nowhere (fun _ => 0)) 1
                 Scenario.no_others)
    [1%nat; 1%nat] "move" Scenario.farmer_gone
  = (Scenario.farmer_gone, Ok tt).
Proof.
  apply (proj2 (proj2 (trigger_composes on_earth
            (hunter_call (Scenario.env_of Scenario.nowhere (fun _ => 0)) 1
                         Scenario.no_others) "move"))).
  repeat constructor.
Defined.

(** X2.  The calls that [trigger] dispatches are made on actors of the
    roster it was given, each position of the roster at most once and in the
    order of the roster: the actors of the calls it enters in the journal
    form a sublist of the roster.  A group created while the roster is
    traversed is therefore not visited in that traversal. *)
Theorem trigger_visits_roster {W : Type} (on_earth_of : W -> AgentId -> bool)
    (call : string -> AgentId -> M W unit) (actors : list AgentId)
    (func : string) (s : W * list Event) :
  exists l : list Event,
    snd (fst (journal_trigger on_earth_of call actors func s)) = snd s ++ l
    /\ sublist (map ev_actor l) actors.
Proof.
  revert s. induction actors as [| a rest IH]; intros s.
  - exists []. split; [by rewrite app_nil_r | constructor].
  - unfold journal_trigger. simpl. fold (journal_trigger on_earth_of call).
    destruct (on_earth_of (fst s) a) eqn:Hp; simpl.
    + unfold bind, journal_call.
      destruct (call func a (fst s)) as [w' [[] | e]].
      * destruct (IH (w', snd s ++ [mkEvent func a (on_earth_of (fst s) a)]))
          as (l & Hl & Hs).
        exists (mkEvent func a (on_earth_of (fst s) a) :: l). rewrite Hl. simpl.
        split; [by rewrite <- app_assoc | by apply sublist_skip].
      * exists [mkEvent func a (on_earth_of (fst s) a)]. simpl.
        split; [done |]. apply sublist_skip, sublist_nil_l.
    + destruct (IH s) as (l & Hl & Hs).
      exists l. split; [done | by apply sublist_cons].
Qed.

(** X3.  A tick that returns has appended exactly one entry to each of the
    three series and has left their earlier entries as they were: to
    [new_farmers] the count of the farmers that [add_farmers] returned, to
    [farmers_num] and to [hunters_num] the sum of the sizes of the farmers
    and of the hunters of the world the tick ends in.  A tick that is left by
    an exception has changed none of the three. *)
Theorem step_records_once {W : Type}
    (on_earth_of : W -> AgentId -> bool)
    (call : string -> AgentId -> M W unit)
    (actors_of farmers_of hunters_of : W -> list AgentId)
    (size_of : W -> AgentId -> Q)
    (add_farmers : M W (list AgentId)) (s : Model W) :
  match step on_earth_of call actors_of farmers_of hunters_of size_of
             add_farmers s with
  | (s', Ok _) =>
      (exists w' farmers, add_farmers (nature s) = (w', Ok farmers)
                          /\ new_farmers s' = new_farmers s ++ [length farmers])
      /\ farmers_num s'
         = farmers_num s ++ [sum_sizes size_of (nature s') (farmers_of (nature s'))]
      /\ hunters_num s'
         = hunters_num s ++ [sum_sizes size_of (nature s') (hunters_of (nature s'))]
  | (s', Raise _) =>
      new_farmers s' = new_farmers s
      /\ farmers_num s' = farmers_num s
      /\ hunters_num s' = hunters_num s
  end.
Proof.
  unfold step, bind, in_nature, record_numbers.
  destruct (add_farmers (nature s)) as [w0 [farmers | e]]; simpl; [| done].
  destruct (trigger _ _ (actors_of w0) "population_growth" w0)
    as [w1 [[] | e]]; simpl; [| done].
  destruct (trigger _ _ (actors_of w1) "convert" w1)
    as [w2 [[] | e]]; simpl; [| done].
  destruct (trigger _ _ (actors_of w2) "diffuse" w2)
    as [w3 [[] | e]]; simpl; [| done].
  destruct (trigger _ _ (hunters_of w3) "move" w3)
    as [w4 [[] | e]]; simpl; [| done].
  split; [by eauto |]. by split.
Qed.

(** ** What movement and competition never do (hunter.py) *)

Lemma evolves_refl (w : World) : evolves w w.
Proof. by repeat split. Qed.

Lemma evolves_trans (w1 w2 w3 : World) :
  evolves w1 w2 -> evolves w2 w3 -> evolves w1 w3.
Proof.
  intros (Hl1 & H1) (Hl2 & H2).
  split; [congruence |].
  intros a. destruct (H1 a) as (Hb1 & Ha1 & Hs1).
  destruct (H2 a) as (Hb2 & Ha2 & Hs2).
  split; [congruence |]. split; [by auto |].
  intros Hne. rewrite Hs2, Hs1; [done | done | congruence].
Qed.

Lemma evolves_die (L : AgentId) (w : World) : evolves w (die L w).
Proof.
  split; [apply length_agents_die |].
  intros a. unfold die.
  rewrite (get_upd_field breed), (get_upd_field size) by done.
  rewrite !get_leave_cell. split; [done |]. split; [| done].
  destruct (decide (L = a)) as [-> | Hne].
  - fold (die a w). by rewrite alive_die.
  - by rewrite get_upd_ne, get_leave_cell.
Qed.

Lemma evolves_set_size (env : Env) (L : AgentId) (v : Q) (w : World) :
  breed (get w L) = "Hunter"%string -> evolves w (set_size env L v w).
Proof.
  intros Hb. unfold set_size.
  split; [apply length_alter |].
  intros a. rewrite (get_upd_field breed), (get_upd_field alive) by done.
  split; [done |]. split; [done |].
  intros Hne. rewrite get_upd_ne; [done |]. congruence.
Qed.

Lemma evolves_base_put_on (X : AgentId) (cell : option Cell) (w : World) :
  evolves w (base_put_on X cell w).
Proof.
  split.
  { unfold base_put_on, leave_cell.
    destruct cell; simpl; rewrite length_alter;
      by destruct (_cell (get w X)). }
  intros a.
  by rewrite (get_base_put_on_field breed), (get_base_put_on_field alive),
    (get_base_put_on_field size).
Qed.

Section Frame.

Variable env : Env.
Variable move_rec : AgentId -> nat -> M World bool.
Hypothesis Hrec : forall X r w, evolves w (fst (move_rec X r w)).

Lemma _loss_competition_evolves (self L : AgentId) (w : World) :
  evolves w (fst (_loss_competition_with env move_rec self L w)).
Proof.
  unfold _loss_competition_with.
  case_bool_decide; [apply evolves_die |].
  destruct (String.eqb (breed (get w L)) "Hunter") eqn:Hb;
    [| apply evolves_refl].
  apply String.eqb_eq in Hb.
  destruct (is_complex env w L); [apply evolves_die |].
  set (w1 := set_size env L _ w).
  assert (H1 : evolves w w1) by by apply evolves_set_size.
  destruct (on_earth w1 L); [| done].
  rewrite fst_bind_ret. eapply evolves_trans; [exact H1 | apply Hrec].
Qed.

Lemma compete_evolves (self other : AgentId) (w : World) :
  evolves w (fst (compete_with env move_rec self other w)).
Proof.
  unfold compete_with. case_bool_decide.
  - unfold _compete_with_farmer_with.
    destruct (Qgeb _ _); rewrite fst_bind_ret; apply _loss_competition_evolves.
  - destruct (String.eqb _ _); [| apply evolves_refl].
    unfold _compete_with_hunter_with.
    destruct (Qgeb _ _); rewrite fst_bind_ret; apply _loss_competition_evolves.
Qed.

Lemma put_on_evolves (X : AgentId) (cell : option Cell) (w : World) :
  evolves w (fst (put_on_with env move_rec X cell w)).
Proof.
  unfold put_on_with. destruct cell as [c |]; [| apply evolves_base_put_on].
  destruct (if has_agent w c then head (cell_agents w c) else None);
    [| apply evolves_base_put_on].
  rewrite fst_bind_ret.
  eapply evolves_trans; [apply evolves_base_put_on | apply compete_evolves].
Qed.

End Frame.

Lemma move_evolves (env : Env) (fuel : nat) (X : AgentId) (r : nat) (w : World) :
  evolves w (fst (move env fuel X r w)).
Proof.
  revert X r w. induction fuel as [| f IH]; intros X r w; simpl;
    (destruct (negb (is_complex env w X) && on_earth w X); [| apply evolves_refl]);
    (destruct (_cell (get w X) ≫= _); [| apply evolves_refl]);
    rewrite fst_bind_ret; apply put_on_evolves; [| exact IH].
  intros ? ? ?. apply evolves_refl.
Qed.

Lemma nested_move_evolves (env : Env) (fuel : nat) (X : AgentId) (r : nat)
    (w : World) :
  evolves w (fst (nested_move env fuel X r w)).
Proof. destruct fuel; [apply evolves_refl | apply move_evolves]. Qed.

(** X4.  Whatever [move], [put_on] and [compete] set off, and however they
    end, they create no group, they change the tag of no group, they bring no
    dead group back, and they change the size of Hunters only: Farmers and
    RiceFarmers keep their size until they die. *)
Theorem competition_frame (env : Env) (fuel : nat) (w : World) :
  (forall (X : AgentId) (r : nat), evolves w (fst (move env fuel X r w)))
  /\ (forall (X : AgentId) (cell : option Cell),
        evolves w (fst (put_on env fuel X cell w)))
  /\ (forall self other : AgentId,
        evolves w (fst (compete env fuel self other w))).
Proof.
  split; [| split].
  - intros X r. apply move_evolves.
  - intros X cell. apply put_on_evolves. apply nested_move_evolves.
  - intros self other. apply compete_evolves. apply nested_move_evolves.
Qed.

(** ** Settled Hunters and the movement of the others (hunter.py) *)

Lemma Qgtb_false (a b : Q) : Qgtb a b = false <-> (a <= b)%Q.
Proof.
  unfold Qgtb. rewrite negb_false_iff. apply Qle_bool_iff.
Qed.

(** A Hunter [E] that is complex, recorded as [g], across what a move sets
    off: who moves is not complex, so it is smaller than [E] and loses to
    it; [E] is never the loser, and only losers and movers are changed. *)
Section Settled.

Variable env : Env.
Variable E : AgentId.
Variable g : Agent.
Hypothesis Hbreed : breed g = "Hunter"%string.
Hypothesis Hbig : Qgtb (size g) (params.is_complex (cfg env)) = true.

Section Open.

Variable move_rec : AgentId -> nat -> M World bool.
Hypothesis Hrec :
  forall X r w, get w E = g -> get (fst (move_rec X r w)) E = g.

Lemma _loss_competition_settled (self L : AgentId) (w : World) :
  L <> E -> get w E = g ->
  get (fst (_loss_competition_with env move_rec self L w)) E = g.
Proof.
  intros Hne Hg. unfold _loss_competition_with.
  case_bool_decide; [simpl; by rewrite get_die_ne |].
  destruct (String.eqb _ _); [| done].
  destruct (is_complex env w L); [simpl; by rewrite get_die_ne |].
  set (w1 := set_size env L _ w).
  assert (H1 : get w1 E = g) by (unfold w1; by rewrite get_set_size_ne).
  destruct (on_earth w1 L); [| done].
  rewrite fst_bind_ret. by apply Hrec.
Qed.

Lemma compete_settled (X other : AgentId) (w : World) :
  X <> E -> get w E = g ->
  is_complex env w X = false -> on_earth w X = true ->
  get (fst (compete_with env move_rec X other w)) E = g.
Proof.
  intros Hne Hg Hc Hp. unfold compete_with.
  case_bool_decide as Hf.
  - assert (Ho : other <> E).
    { intros ->. rewrite Hg in Hf. by apply (hunter_not_farmer_kind _ Hbreed). }
    unfold _compete_with_farmer_with.
    destruct (Qgeb _ _); rewrite fst_bind_ret;
      by apply _loss_competition_settled.
  - destruct (String.eqb _ _); [| done].
    unfold _compete_with_hunter_with.
    destruct (Qgeb _ _) eqn:Hge; rewrite fst_bind_ret;
      apply _loss_competition_settled; try done.
    intros ->. rewrite Hg in Hge.
    apply Qgeb_true in Hge. apply Qgtb_true in Hbig.
    revert Hc Hp. unfold is_complex, on_earth.
    destruct (_cell (get w X)); [| done].
    intros Hle%Qgtb_false _.
    apply (Qlt_irrefl (size g)).
    eapply Qle_lt_trans; [exact Hge |].
    eapply Qle_lt_trans; [exact Hle | exact Hbig].
Qed.

Lemma put_on_settled (X : AgentId) (c : Cell) (w : World) :
  X <> E -> get w E = g ->
  is_complex env w X = false -> on_earth w X = true ->
  get (fst (put_on_with env move_rec X (Some c) w)) E = g.
Proof.
  intros Hne Hg Hc Hp. unfold put_on_with.
  set (w1 := base_put_on X (Some c) w).
  assert (Hg1 : get w1 E = g) by (unfold w1; by rewrite get_base_put_on_ne).
  assert (Hin : (X < length (agents w))%nat).
  { revert Hp. unfold on_earth.
    destruct (_cell (get w X)) eqn:Hx; [| done]. intros _.
    by eapply placed_in_heap. }
  assert (Hx1 : get w1 X = with_cell (Some c) (get w X))
    by by apply get_base_put_on_eq.
  assert (Hc1 : is_complex env w1 X = false).
  { revert Hc Hp. unfold is_complex, on_earth. rewrite Hx1. simpl.
    by destruct (_cell (get w X)). }
  assert (Hp1 : on_earth w1 X = true) by (unfold on_earth; by rewrite Hx1).
  destruct (if has_agent w c then head (cell_agents w c) else None); [| done].
  rewrite fst_bind_ret. by apply compete_settled.
Qed.

End Open.

Lemma move_settled (fuel : nat) (X : AgentId) (r : nat) (w : World) :
  get w E = g -> _cell g <> None ->
  get (fst (move env fuel X r w)) E = g.
Proof.
  intros Hg Hplaced. revert X r w Hg.
  induction fuel as [| f IH]; intros X r w Hg; simpl;
    destruct (is_complex env w X) eqn:Hc; simpl; try done;
    destruct (on_earth w X) eqn:Hp; simpl; try done;
    destruct (_cell (get w X) ≫= _); try done;
    rewrite fst_bind_ret;
    apply put_on_settled; try done;
    first [ exact IH
          | by intros ? ? ? ?
          | intros ->; revert Hc; unfold is_complex; rewrite Hg;
            destruct (_cell g); [by rewrite Hbig | done] ].
Qed.

End Settled.

(** X5.  A complex Hunter is out of reach of the movement of the others:
    whatever a [move()] sets off, and however it ends, a group that was a
    complex Hunter before is exactly as it was: alive, of the same size, on
    the same cell.  The one who moves is not complex, hence smaller, and
    loses against it. *)
Theorem settled_hunter_untouched (env : Env) (fuel : nat) (X : AgentId)
    (r : nat) (w : World) (E : AgentId) :
  breed (get w E) = "Hunter"%string ->
  is_complex env w E = true ->
  get (fst (move env fuel X r w)) E = get w E.
Proof.
  intros Hb Hc.
  apply (move_settled env E (get w E) Hb); [| done |].
  - revert Hc. unfold is_complex. by destruct (_cell (get w E)).
  - revert Hc. unfold is_complex. by destruct (_cell (get w E)).
Qed.

Lemma move_lives (env : Env) (fuel : nat) (X : AgentId) (r : nat) (w : World)
    (A : AgentId) :
  lives A w -> lives A (fst (move env fuel X r w)).
Proof.
  intros Hl. destruct (is_complex env w A) eqn:Hc.
  - destruct Hl as [Ha Hb]. unfold lives.
    assert (Hg : get (fst (move env fuel X r w)) A = get w A).
    { apply (move_settled env A (get w A) Hb); [| done |];
        revert Hc; unfold is_complex; by destruct (_cell (get w A)). }
    by rewrite Hg.
  - apply move_keeps; [done | by left].
Qed.

Lemma settled_hunter_untouched_witness :
  get (fst (move (Scenario.env_of Scenario.onward (fun _ => 0)) 3 0%nat 1
                 Scenario.mover_and_settled)) 1%nat
  = get Scenario.mover_and_settled 1%nat.
Proof.
  apply (settled_hunter_untouched (Scenario.env_of Scenario.onward (fun _ => 0))
                                  3 0%nat 1%nat Scenario.mover_and_settled 1%nat);
    reflexivity.
Defined.

(** The Hunter of size 90 moves onto the settled one, loses, is left with 45
    and moves on to the vacant cell; the settled one has not changed. *)
Example mover_bounces_off :
  let r := move (Scenario.env_of Scenario.onward (fun _ => 0)) 3 0%nat 1
                Scenario.mover_and_settled in
  snd r = Ok true
  /\ size (get (fst r) 0%nat) == 45
  /\ _cell (get (fst r) 0%nat) = Some 2%nat
  /\ cell_agents (fst r) 1%nat = [1%nat].
Proof. vm_compute. auto. Qed.

Lemma hunter_call_move (env : Env) (fuel : nat)
    (others : string -> AgentId -> M World unit) (a : AgentId) (w : World) :
  breed (get w a) = "Hunter"%string ->
  hunter_call env fuel others "move" a w = (move env fuel a 1%nat ;; ret tt) w.
Proof. intros Hb. unfold hunter_call. by rewrite Hb. Qed.

Lemma move_phase_lives (env : Env) (fuel : nat)
    (others : string -> AgentId -> M World unit) (A : AgentId)
    (l : list AgentId) (w : World) :
  Forall (fun a => breed (get w a) = "Hunter"%string) l ->
  lives A w ->
  lives A (fst (trigger on_earth (hunter_call env fuel others) l "move" w)).
Proof.
  revert w. induction l as [| a rest IH]; intros w Hall Hl; [done |].
  apply Forall_cons in Hall as [Ha Hrest].
  cbn [trigger]. destruct (negb (on_earth w a)); [by apply IH |].
  unfold bind at 1. rewrite (hunter_call_move _ _ _ _ _ Ha).
  pose proof (move_lives env fuel a 1%nat w A Hl) as Hl1.
  pose proof (move_evolves env fuel a 1%nat w) as (_ & Hev).
  unfold bind, ret.
  destruct (move env fuel a 1%nat w) as [w1 [b | e]]; simpl in *; [| done].
  apply IH; [| done].
  eapply Forall_impl; [exact Hrest |].
  intros x Hx. simpl in Hx. destruct (Hev x) as (Hb & _). congruence.
Qed.

(** X6.  Movement kills no Hunter.  Whatever a [move()] sets off and however
    it ends, every Hunter alive before is alive after: only Farmers and
    RiceFarmers can die of it.  The same holds for the whole movement phase
    of a tick, [trigger(self.hunters, "move")]. *)
Theorem movement_kills_no_hunter (env : Env) (fuel : nat) (w : World)
    (A : AgentId) :
  alive (get w A) = true ->
  breed (get w A) = "Hunter"%string ->
  (forall (X : AgentId) (r : nat),
     alive (get (fst (move env fuel X r w)) A) = true)
  /\ (forall others : string -> AgentId -> M World unit,
        alive (get (fst (trigger on_earth (hunter_call env fuel others)
                                 (select "Hunter" w) "move" w)) A) = true).
Proof.
  intros Ha Hb. split.
  - intros X r. by apply (move_lives env fuel X r w A).
  - intros others.
    apply (move_phase_lives env fuel others A (select "Hunter" w) w); [| done].
    apply Forall_forall. intros x Hx. unfold select in Hx.
    by apply list_elem_of_filter in Hx as [Hx _].
Qed.

Lemma movement_kills_no_hunter_witness :
  alive (get (fst (trigger on_earth
                     (hunter_call (Scenario.env_of Scenario.onward (fun _ => 0)) 3
                                  Scenario.no_others)
                     (select "Hunter" Scenario.mover_and_settled) "move"
                     Scenario.mover_and_settled)) 0%nat) = true.
Proof.
  apply (movement_kills_no_hunter (Scenario.env_of Scenario.onward (fun _ => 0))
                                  3 Scenario.mover_and_settled 0%nat);
    reflexivity.
Defined.

(** ** What a conversion gives (hunter.py) *)

Lemma convert_closed_form (env : Env) (self : AgentId) (radius : nat)
    (moore : bool) (w : World) (c : Cell) :
  _cell (get w self) = Some c ->
  convert env self radius moore w =
    if farmer_conditions env w c radius moore then
      (fst (cell_convert c self "Farmer" (drawn w)), Ok (length (agents w)))
    else if rice_conditions env (drawn w) c radius moore then
      (fst (cell_convert c self "RiceFarmer" (drawn (drawn w))),
       Ok (length (agents w)))
    else (drawn (drawn w), Ok self).
Proof.
  intros Hc. pose proof (placed_in_heap _ _ _ Hc) as Hlt.
  rewrite convert_unfold. unfold _convert_to_farmer. rewrite Hc.
  change (random (random_stream env) w)
    with (drawn w, random_stream env (draws w)).
  cbv beta iota zeta. fold (farmer_conditions env w c radius moore).
  destruct (farmer_conditions env w c radius moore).
  - pose proof (cell_convert_new c self "Farmer" (drawn w)) as (Hn & _).
    destruct (cell_convert c self "Farmer" (drawn w)) as [w2 new].
    simpl in Hn. subst new. cbn [fst].
    rewrite decide_False by (simpl; lia). reflexivity.
  - rewrite decide_True by done.
    unfold _convert_to_rice.
    change (get (drawn w) self) with (get w self). rewrite Hc.
    change (random (random_stream env) (drawn w))
      with (drawn (drawn w), random_stream env (draws (drawn w))).
    cbv beta iota zeta.
    fold (rice_conditions env (drawn w) c radius moore).
    destruct (rice_conditions env (drawn w) c radius moore); [| done].
    pose proof (cell_convert_new c self "RiceFarmer" (drawn (drawn w)))
      as (Hn & _).
    destruct (cell_convert c self "RiceFarmer" (drawn (drawn w))) as [w2 new].
    simpl in Hn. by subst new.
Qed.

Lemma get_cell_convert_new (c : Cell) (a : AgentId) (to : string) (w : World) :
  get (fst (cell_convert c a to w)) (length (agents w))
  = {| breed := to; size := size (get w a); alive := true; _cell := Some c |}.
Proof.
  unfold cell_convert, get. cbn [fst agents].
  rewrite lookup_app_r by (rewrite length_agents_die; lia).
  rewrite length_agents_die, Nat.sub_diag. reflexivity.
Qed.

Lemma get_cell_convert_old (c : Cell) (a : AgentId) (to : string) (w : World) :
  (a < length (agents w))%nat ->
  alive (get (fst (cell_convert c a to w)) a) = false.
Proof.
  intros Hlt. unfold cell_convert.
  assert (Hg : get {| agents := agents (die a w) ++
                        [{| breed := to; size := size (get w a);
                            alive := true; _cell := Some c |}];
                      occ := <[c := cell_agents (die a w) c
                                      ++ [length (agents (die a w))]]>
                               (occ (die a w));
                      draws := draws (die a w) |} a
               = get (die a w) a).
  { unfold get. cbn [agents].
    by rewrite lookup_app_l by (rewrite length_agents_die; lia). }
  cbn [fst]. rewrite Hg. apply alive_die.
Qed.

Lemma cell_agents_cell_convert (c : Cell) (a : AgentId) (to : string) (w : World) :
  _cell (get w a) = Some c ->
  cell_agents (fst (cell_convert c a to w)) c
  = filter (fun x => x <> a) (cell_agents w c) ++ [length (agents w)].
Proof.
  intros Hc. unfold cell_convert. cbn [fst].
  unfold cell_agents at 1. cbn [occ]. rewrite lookup_insert_eq. cbn [default].
  by rewrite (cell_agents_die _ _ _ Hc), length_agents_die.
Qed.

(** X7.  For a Hunter placed on cell [c], [convert()] returns, and what it
    returns is decided by the two sets of conditions: a Farmer exactly when
    a neighbouring cell holds a Farmer, the cell is arable and the first
    draw is below [convert_prob["to_farmer"]]; a RiceFarmer exactly when
    that fails and a neighbouring cell holds a RiceFarmer, the cell is fit
    for rice and the second draw is below [convert_prob["to_rice"]]; the
    Hunter itself exactly when both fail.  When both sets of conditions hold
    the Hunter becomes a Farmer. *)
Theorem convert_decides (env : Env) (self : AgentId) (radius : nat)
    (moore : bool) (w : World) (c : Cell) :
  breed (get w self) = "Hunter"%string ->
  _cell (get w self) = Some c ->
  exists (w' : World) (r : AgentId),
    convert env self radius moore w = (w', Ok r)
    /\ (breed (get w' r) = "Farmer"%string
        <-> farmer_conditions env w c radius moore = true)
    /\ (breed (get w' r) = "RiceFarmer"%string
        <-> farmer_conditions env w c radius moore = false
            /\ rice_conditions env (drawn w) c radius moore = true)
    /\ (r = self
        <-> farmer_conditions env w c radius moore = false
            /\ rice_conditions env (drawn w) c radius moore = false).
Proof.
  intros Hb Hc. pose proof (placed_in_heap _ _ _ Hc) as Hlt.
  rewrite (convert_closed_form env self radius moore w c Hc).
  destruct (farmer_conditions env w c radius moore);
    [| destruct (rice_conditions env (drawn w) c radius moore)];
    eexists _, _; (split; [reflexivity |]).
  - change (length (agents w)) with (length (agents (drawn w))).
    rewrite get_cell_convert_new. simpl.
    repeat split; try done; try (intros [? ?]; done); intros; lia.
  - change (length (agents w)) with (length (agents (drawn (drawn w)))).
    rewrite get_cell_convert_new. simpl.
    repeat split; try done; try (intros [? ?]; done); intros; lia.
  - change (get (drawn (drawn w)) self) with (get w self). rewrite Hb.
    repeat split; try done; try (intros [? ?]; done).
Qed.

Lemma convert_decides_witness :
  exists (w' : World) (r : AgentId),
    convert (Scenario.env_of Scenario.nowhere (fun _ => 2 # 5)) 0%nat 1 false
            Scenario.hunter_by_farmer = (w', Ok r)
    /\ (breed (get w' r) = "Farmer"%string
        <-> farmer_conditions (Scenario.env_of Scenario.nowhere (fun _ => 2 # 5))
              Scenario.hunter_by_farmer 0%nat 1 false = true)
    /\ (breed (get w' r) = "RiceFarmer"%string
        <-> farmer_conditions (Scenario.env_of Scenario.nowhere (fun _ => 2 # 5))
              Scenario.hunter_by_farmer 0%nat 1 false = false
            /\ rice_conditions (Scenario.env_of Scenario.nowhere (fun _ => 2 # 5))
                 (drawn Scenario.hunter_by_farmer) 0%nat 1 false = true)
    /\ (r = 0%nat
        <-> farmer_conditions (Scenario.env_of Scenario.nowhere (fun _ => 2 # 5))
              Scenario.hunter_by_farmer 0%nat 1 false = false
            /\ rice_conditions (Scenario.env_of Scenario.nowhere (fun _ => 2 # 5))
                 (drawn Scenario.hunter_by_farmer) 0%nat 1 false = false).
Proof.
  apply (convert_decides (Scenario.env_of Scenario.nowhere (fun _ => 2 # 5))
                         0%nat 1%nat false Scenario.hunter_by_farmer 0%nat);
    reflexivity.
Defined.

(** X8.  For a live Hunter placed on cell [c] and listed there, the group
    that [convert()] returns is alive, has the size the Hunter had, and is on
    cell [c] and listed there.  If it is not the Hunter itself, the Hunter is
    dead and no longer listed on the cell. *)
Theorem convert_keeps_size_and_place (env : Env) (self : AgentId)
    (radius : nat) (moore : bool) (w : World) (c : Cell) :
  alive (get w self) = true ->
  _cell (get w self) = Some c ->
  self ∈ cell_agents w c ->
  exists (w' : World) (r : AgentId),
    convert env self radius moore w = (w', Ok r)
    /\ alive (get w' r) = true
    /\ size (get w' r) = size (get w self)
    /\ _cell (get w' r) = Some c
    /\ r ∈ cell_agents w' c
    /\ (r <> self -> alive (get w' self) = false /\ self ∉ cell_agents w' c).
Proof.
  intros Ha Hc Hin. pose proof (placed_in_heap _ _ _ Hc) as Hlt.
  rewrite (convert_closed_form env self radius moore w c Hc).
  assert (Hconv : forall (to : string) (w0 : World),
            agents w0 = agents w -> occ w0 = occ w ->
            let w' := fst (cell_convert c self to w0) in
            let r := length (agents w) in
            alive (get w' r) = true
            /\ size (get w' r) = size (get w self)
            /\ _cell (get w' r) = Some c
            /\ r ∈ cell_agents w' c
            /\ (r <> self ->
                alive (get w' self) = false /\ self ∉ cell_agents w' c)).
  { intros to w0 Hag Hocc w' r.
    assert (Hg : forall a, get w0 a = get w a)
      by (intros a; unfold get; by rewrite Hag).
    assert (Hca : cell_agents w0 c = cell_agents w c)
      by (unfold cell_agents; by rewrite Hocc).
    assert (Hnew : get w' r = {| breed := to; size := size (get w self);
                                 alive := true; _cell := Some c |}).
    { unfold w', r. rewrite <- Hag, get_cell_convert_new. by rewrite Hg. }
    assert (Hl : cell_agents w' c
                 = filter (fun x => x <> self) (cell_agents w c) ++ [r]).
    { unfold w', r. rewrite cell_agents_cell_convert by (by rewrite Hg).
      by rewrite Hca, Hag. }
    rewrite Hnew, Hl. simpl. repeat split; try done.
    - apply elem_of_app. right. apply list_elem_of_here.
    - unfold w'. apply get_cell_convert_old. by rewrite Hag.
    - intros [Hf | Hr]%elem_of_app.
      + by apply list_elem_of_filter in Hf as [Hf _].
      + apply list_elem_of_singleton in Hr. congruence. }
  destruct (farmer_conditions env w c radius moore);
    [| destruct (rice_conditions env (drawn w) c radius moore)];
    eexists _, _; (split; [reflexivity |]).
  - by apply (Hconv "Farmer"%string (drawn w)).
  - by apply (Hconv "RiceFarmer"%string (drawn (drawn w))).
  - change (get (drawn (drawn w)) self) with (get w self).
    change (cell_agents (drawn (drawn w)) c) with (cell_agents w c).
    by repeat split.
Qed.

Lemma convert_keeps_size_and_place_witness :
  exists (w' : World) (r : AgentId),
    convert (Scenario.env_of Scenario.nowhere (fun _ => 2 # 5)) 0%nat 1 false
            Scenario.hunter_by_farmer = (w', Ok r)
    /\ alive (get w' r) = true
    /\ size (get w' r) = size (get Scenario.hunter_by_farmer 0%nat)
    /\ _cell (get w' r) = Some 0%nat
    /\ r ∈ cell_agents w' 0%nat
    /\ (r <> 0%nat ->
        alive (get w' 0%nat) = false /\ 0%nat ∉ cell_agents w' 0%nat).
Proof.
  apply (convert_keeps_size_and_place
           (Scenario.env_of Scenario.nowhere (fun _ => 2 # 5))
           0%nat 1%nat false Scenario.hunter_by_farmer 0%nat);
    [reflexivity | reflexivity |].
  vm_compute. apply list_elem_of_here.
Defined.

(** ** The legacy mobility (src/hunter.py) *)

(** X9.  The legacy [move()] does nothing, and raises nothing, for a Hunter
    whose size does not exceed [settle_size]; it relocates the Hunters above
    it.  With [settle_size] equal to the current complexity threshold, this
    is the reverse of the current [move()]: for a placed Hunter the legacy
    [moving] is the current [is_complex], so a Hunter that the current
    [move()] relocates is left where it is by the legacy one, and a placed
    Hunter that the current one holds in place is the one the legacy one
    sends to a chosen cell. *)
Theorem legacy_move_inverts (env : Env) (settle_size : Q)
    (choose_free_cell : Cell -> M World Cell)
    (inherited_put_on : AgentId -> Cell -> M World unit)
    (self : AgentId) (w : World) :
  (size (get w self) <= settle_size ->
   Legacy.move settle_size choose_free_cell inherited_put_on self w = (w, Ok tt))
  /\ (settle_size = params.is_complex (cfg env) ->
      on_earth w self = true ->
      Legacy.moving settle_size w self = is_complex env w self)
  /\ (settle_size = params.is_complex (cfg env) ->
      forall (fuel r : nat) (w' : World),
        move env fuel self r w = (w', Ok true) ->
        Legacy.move settle_size choose_free_cell inherited_put_on self w
        = (w, Ok tt))
  /\ (settle_size = params.is_complex (cfg env) ->
      forall c : Cell,
        _cell (get w self) = Some c ->
        is_complex env w self = true ->
        (forall fuel r : nat, move env fuel self r w = (w, Ok false))
        /\ Legacy.move settle_size choose_free_cell inherited_put_on self w
           = (cell <- choose_free_cell c ;; inherited_put_on self cell) w).
Proof.
  assert (Hsame : settle_size = params.is_complex (cfg env) ->
                  on_earth w self = true ->
                  Legacy.moving settle_size w self = is_complex env w self).
  { intros -> Hp. revert Hp. unfold Legacy.moving, is_complex, on_earth.
    by destruct (_cell (get w self)). }
  split; [| split; [exact Hsame | split]].
  - intros Hle. unfold Legacy.move, Legacy.moving.
    by rewrite (proj2 (Qgtb_false _ _) Hle).
  - intros Hs fuel r w'. rewrite move_unfold.
    destruct (is_complex env w self) eqn:Hc; simpl; [discriminate |].
    destruct (on_earth w self) eqn:Hp; [| discriminate].
    intros _. unfold Legacy.move. by rewrite (Hsame Hs eq_refl).
  - intros Hs c Hcell Hc. split.
    + intros fuel r. rewrite move_unfold. by rewrite Hc.
    + assert (Hp : on_earth w self = true) by (unfold on_earth; by rewrite Hcell).
      unfold Legacy.move. by rewrite (Hsame Hs Hp), Hc, Hcell.
Qed.

Lemma legacy_move_inverts_witness :
  Legacy.move 100 (fun c => ret (S c)) (fun _ _ => ret tt) 0%nat
              Scenario.two_hunters
  = (Scenario.two_hunters, Ok tt).
Proof.
  apply (legacy_move_inverts (Scenario.env_of Scenario.nowhere (fun _ => 0)) 100
           (fun c => ret (S c)) (fun _ _ => ret tt) 0%nat Scenario.two_hunters).
  discriminate.
Defined.

(** ** Intensification and the unplaced Hunter (hunter.py) *)

(** X10.  Intensification never turns a victory into a defeat: with an
    [intensified_coefficient] of at least 1 and a size that is not negative,
    every opponent that [_compete_with_hunter] would beat is beaten by
    [_compete_with_farmer] as well, and both charge the opponent with the
    loss penalty. *)
Theorem intensified_wins_too (env : Env) (fuel : nat) (self other : AgentId)
    (w : World) :
  1 <= params.intensified_coefficient (cfg env) ->
  0 <= size (get w self) ->
  size (get w other) <= size (get w self) ->
  _compete_with_hunter env fuel self other w =
    (_loss_competition env fuel self other ;; ret true) w
  /\ _compete_with_farmer env fuel self other w =
       (_loss_competition env fuel self other ;; ret true) w.
Proof.
  intros Hk Hs Hle. split.
  - unfold _compete_with_hunter, _compete_with_hunter_with.
    by rewrite (proj2 (Qgeb_true _ _) Hle).
  - unfold _compete_with_farmer, _compete_with_farmer_with.
    rewrite (proj2 (Qgeb_true _ _)); [done |].
    eapply Qle_trans; [exact Hle |].
    assert (H1 : size (get w self) * 1
                 <= size (get w self) * params.intensified_coefficient (cfg env)).
    { apply Qmult_le_compat_nonneg; split;
        [exact Hs | apply Qle_refl | discriminate | exact Hk]. }
    eapply Qle_trans; [| exact H1].
    apply Qle_lteq. right. symmetry. apply Qmult_1_r.
Qed.

Lemma intensified_wins_too_witness :
  _compete_with_hunter (Scenario.env_of Scenario.nowhere (fun _ => 0)) 0 0%nat
                       1%nat Scenario.hunter_farmer
  = (_loss_competition (Scenario.env_of Scenario.nowhere (fun _ => 0)) 0 0%nat
                       1%nat ;; ret true) Scenario.hunter_farmer
  /\ _compete_with_farmer (Scenario.env_of Scenario.nowhere (fun _ => 0)) 0 0%nat
                          1%nat Scenario.hunter_farmer
     = (_loss_competition (Scenario.env_of Scenario.nowhere (fun _ => 0)) 0 0%nat
                          1%nat ;; ret true) Scenario.hunter_farmer.
Proof.
  apply (intensified_wins_too (Scenario.env_of Scenario.nowhere (fun _ => 0))
                              0 0%nat 1%nat Scenario.hunter_farmer);
    discriminate.
Defined.

Lemma cell_base_put_on_none (a : AgentId) (w : World) :
  _cell (get (base_put_on a None w) a) = None.
Proof.
  unfold base_put_on, get, upd. cbn [agents].
  rewrite list_lookup_alter_eq.
  by destruct (agents (leave_cell a w) !! a).
Qed.

(** X11.  [put_on(None)] takes the Hunter off the grid without any
    competition, and leaves every other group as it was.  The Hunter is then
    inert: it is not complex whatever its size, its [max_size] is
    100,000,000, [move()] returns False and changes nothing, and [convert()]
    raises AttributeError before drawing. *)
Theorem put_on_none_unplaces (env : Env) (fuel : nat) (self : AgentId)
    (w : World) :
  let w' := base_put_on self None w in
  put_on env fuel self None w = (w', Ok tt)
  /\ on_earth w' self = false
  /\ is_complex env w' self = false
  /\ max_size env w' self = 100000000
  /\ (forall fuel' r : nat, move env fuel' self r w' = (w', Ok false))
  /\ (forall (r : nat) (m : bool),
        convert env self r m w' = (w', Raise AttributeError))
  /\ (forall a : AgentId, a <> self -> get w' a = get w a).
Proof.
  intros w'.
  pose proof (cell_base_put_on_none self w) as Hc. fold w' in Hc.
  split; [reflexivity |].
  split; [unfold on_earth; by rewrite Hc |].
  split; [unfold is_complex; by rewrite Hc |].
  split; [unfold max_size; by rewrite Hc |].
  split.
  { intros fuel' r. rewrite move_unfold. unfold on_earth. rewrite Hc.
    by rewrite andb_false_r. }
  split.
  { intros r m. unfold convert, _convert_to_farmer. by rewrite Hc. }
  intros a Hne. unfold w'. by apply get_base_put_on_ne.
Qed.

(** ** The recursion bound (hunter.py) *)

Lemma within_bound_refl {A : Type} (m : M World A) : within_bound m m.
Proof. by intros w w' o H _. Qed.

Lemma within_bound_bind_ret {A B : Type} (m1 m2 : M World A) (b : B) :
  within_bound m1 m2 -> within_bound (m1 ;; ret b) (m2 ;; ret b).
Proof.
  intros Hm w w' o. unfold bind, ret.
  destruct (m1 w) as [w1 [a | e]] eqn:H1.
  - intros [= <- <-] _. by rewrite (Hm w w1 (Ok a) H1).
  - intros [= <- <-] He. rewrite (Hm w w1 (Raise e) H1); [done |]. congruence.
Qed.

Section Bound.

Variable env : Env.
Variables rec1 rec2 : AgentId -> nat -> M World bool.
Hypothesis Hrec : forall X r, within_bound (rec1 X r) (rec2 X r).

Lemma _loss_competition_within (self L : AgentId) :
  within_bound (_loss_competition_with env rec1 self L)
               (_loss_competition_with env rec2 self L).
Proof.
  intros w w' o. unfold _loss_competition_with.
  case_bool_decide; [done |].
  destruct (String.eqb _ _); [| done].
  destruct (is_complex env w L); [done |].
  destruct (on_earth _ L); [| done].
  apply within_bound_bind_ret, Hrec.
Qed.

Lemma compete_within (self other : AgentId) :
  within_bound (compete_with env rec1 self other)
               (compete_with env rec2 self other).
Proof.
  intros w w' o. unfold compete_with.
  case_bool_decide.
  - unfold _compete_with_farmer_with.
    destruct (Qgeb _ _);
      apply within_bound_bind_ret, _loss_competition_within.
  - destruct (String.eqb _ _); [| done].
    unfold _compete_with_hunter_with.
    destruct (Qgeb _ _);
      apply within_bound_bind_ret, _loss_competition_within.
Qed.

Lemma put_on_within (X : AgentId) (cell : option Cell) :
  within_bound (put_on_with env rec1 X cell) (put_on_with env rec2 X cell).
Proof.
  intros w w' o. unfold put_on_with. destruct cell as [c |]; [| done].
  destruct (if has_agent w c then head (cell_agents w c) else None); [| done].
  apply within_bound_bind_ret, compete_within.
Qed.

End Bound.

Lemma move_within (env : Env) (fuel : nat) (X : AgentId) (r : nat) :
  within_bound (move env fuel X r) (move env (S fuel) X r).
Proof.
  revert X r. induction fuel as [| f IH]; intros X r w w' o;
    rewrite !move_unfold;
    (destruct (negb (is_complex env w X) && on_earth w X); [| done]);
    (destruct (_cell (get w X) ≫= _); [| done]);
    apply within_bound_bind_ret, put_on_within.
  - intros Y r' w0 w1 o0. simpl. unfold raise. by intros [= <- <-] ?.
  - exact IH.
Qed.

Lemma move_within_le (env : Env) (fuel fuel' : nat) (X : AgentId) (r : nat) :
  (fuel <= fuel')%nat ->
  within_bound (move env fuel X r) (move env fuel' X r).
Proof.
  induction 1 as [| n _ IH]; [apply within_bound_refl |].
  intros w w' o H Ho. apply move_within. by apply IH. done.
Qed.

(** X12.  The bound on the recursion only cuts runs short: what [move],
    [put_on] and [compete] reach under one bound without exhausting it (a
    result, or an exception other than RecursionError) they reach, with the
    same world, under every larger bound. *)
Theorem larger_bound_same_result (env : Env) (fuel fuel' : nat) :
  (fuel <= fuel')%nat ->
  (forall (X : AgentId) (r : nat),
     within_bound (move env fuel X r) (move env fuel' X r))
  /\ (forall (X : AgentId) (cell : option Cell),
        within_bound (put_on env fuel X cell) (put_on env fuel' X cell))
  /\ (forall self other : AgentId,
        within_bound (compete env fuel self other)
                     (compete env fuel' self other)).
Proof.
  intros Hle.
  assert (Hnest : forall X r,
            within_bound (nested_move env fuel X r) (nested_move env fuel' X r)).
  { intros X r. destruct fuel as [| f].
    - intros w w' o. simpl. unfold raise. by intros [= <- <-] ?.
    - destruct fuel' as [| f']; [lia |]. simpl.
      apply move_within_le. lia. }
  split; [| split].
  - intros X r. by apply move_within_le.
  - intros X cell. by apply put_on_within.
  - intros self other. by apply compete_within.
Qed.

Lemma larger_bound_same_result_witness :
  within_bound
    (move (Scenario.env_of Scenario.onward (fun _ => 0)) 3 0%nat 1)
    (move (Scenario.env_of Scenario.onward (fun _ => 0)) 1000 0%nat 1).
Proof.
  apply (larger_bound_same_result (Scenario.env_of Scenario.onward (fun _ => 0))
                                  3 1000).
  lia.
Defined.

(** The journal of a tick over two Hunters: growth of both, conversion of
    both, diffusion of both, then movement of both. *)
Example journal_of_a_tick :
  journal
    (fst (journal_step on_earth
            (hunter_call (Scenario.env_of Scenario.onward (fun _ => 0)) 3
                         Scenario.no_others)
            actors (select "Farmer") (select "Hunter")
            (fun w a => size (get w a)) (ret [])
            (mkModel (Scenario.mover_and_settled, []) [] [] [])))
  = [mkEvent "population_growth" 0 true; mkEvent "population_growth" 1 true;
     mkEvent "convert" 0 true; mkEvent "convert" 1 true;
     mkEvent "diffuse" 0 true; mkEvent "diffuse" 1 true;
     mkEvent "move" 0 true; mkEvent "move" 1 true].
Proof. vm_compute. reflexivity. Qed.
